(** * chatgpt-tool-hub: output parsing of the chat bot and the tool adapters

    A shallow embedding of
    - [chatgpt_tool_hub/bots/chat_bot/base.py] (class [ChatBot]),
    - [chatgpt_tool_hub/tools/google_search/google_search.py],
    - [chatgpt_tool_hub/tools/web_requests/browser.py],
    together with the fragments of Python's [str] and [re] they call. *)

From Stdlib Require Import String Ascii.
From Stdlib Require Import List NArith ZArith Lia Bool.
From Equations Require Import Equations.
Import ListNotations.

Set Implicit Arguments.

(** ** Exceptions and results *)

(** The exception classes that occur in the three files, plus a generic
    class for whatever the wrapped services raise.  [KeyboardInterrupt],
    [SystemExit] and [GeneratorExit] derive from [BaseException] only, so
    an [except Exception] clause lets them through. *)
Inductive exc_class : Type :=
| ValueError
| IndexError
| AttributeError
| NotImplementedError
| KeyboardInterrupt
| SystemExit
| GeneratorExit
| OtherException (name : string).

Definition is_Exception (c : exc_class) : bool :=
  match c with
  | KeyboardInterrupt | SystemExit | GeneratorExit => false
  | _ => true
  end.

(** ** Python strings *)

Module PyStr.

(** A Python [str] is a sequence of Unicode code points. *)
Definition char := N.
Definition str := list char.

(** String literals of the source, written as Rocq strings. *)
Definition py (s : string) : str := map N_of_ascii (list_ascii_of_string s).

Definition newline : char := 10%N.
Definition space : char := 32%N.
Definition dquote : char := 34%N.
Definition colon : char := 58%N.

(** [str.isspace] on one code point (CPython's [_PyUnicode_IsWhitespace]). *)
Definition isspace (c : char) : bool :=
  ((9 <=? c) && (c <=? 13) || (28 <=? c) && (c <=? 32)
   || (c =? 133) || (c =? 160) || (c =? 5760)
   || (8192 <=? c) && (c <=? 8202)
   || (c =? 8232) || (c =? 8233) || (c =? 8239) || (c =? 8287)
   || (c =? 12288))%N.

(** [s.startswith(p)] *)
Fixpoint startswith (s p : str) : bool :=
  match p, s with
  | [], _ => true
  | _ :: _, [] => false
  | a :: p', b :: s' => N.eqb a b && startswith s' p'
  end.

(** [sub in s] *)
Fixpoint contains (s sub : str) : bool :=
  startswith s sub ||
  match s with
  | [] => false
  | _ :: s' => contains s' sub
  end.

(** [s.find(sub)], with [None] for Python's [-1]. *)
Fixpoint find (s sub : str) : option nat :=
  if startswith s sub then Some 0
  else match s with
       | [] => None
       | _ :: s' => option_map S (find s' sub)
       end.

Fixpoint dropwhile (p : char -> bool) (s : str) : str :=
  match s with
  | [] => []
  | c :: s' => if p c then dropwhile p s' else s
  end.

Fixpoint takewhile (p : char -> bool) (s : str) : str :=
  match s with
  | [] => []
  | c :: s' => if p c then c :: takewhile p s' else []
  end.

Definition lstrip_by (p : char -> bool) (s : str) : str := dropwhile p s.
Definition rstrip_by (p : char -> bool) (s : str) : str :=
  rev (dropwhile p (rev s)).
Definition strip_by (p : char -> bool) (s : str) : str :=
  rstrip_by p (lstrip_by p s).

(** [s.strip()] removes leading and trailing whitespace. *)
Definition strip (s : str) : str := strip_by isspace s.

(** [s.strip(chars)] removes leading and trailing characters that occur
    in [chars]. *)
Definition strip_chars (chars s : str) : str :=
  strip_by (fun c => existsb (N.eqb c) chars) s.

End PyStr.
Import PyStr.

(** A raised exception carries its class and its message. *)
Record exception : Type := Exc { exc_class_of : exc_class; exc_msg : str }.

Inductive result (A : Type) : Type :=
| Return (a : A)
| Raise (e : exception).
Arguments Return {A} a.
Arguments Raise {A} e.

Definition bind {A B : Type} (m : result A) (f : A -> result B) : result B :=
  match m with
  | Return a => f a
  | Raise e => Raise e
  end.

Notation "x <- m ;; k" := (bind m (fun x => k))
  (at level 61, m at next level, right associativity).

Definition raises {A : Type} (m : result A) : Prop :=
  exists e, m = Raise e.

Module PyList.

Lemma startswith_length (p s : str) :
  startswith s p = true -> length p <= length s.
Proof.
  revert s. induction p as [|a p IH]; intros [|b s]; simpl; try lia; try discriminate.
  rewrite andb_true_iff. intros [_ H]. apply IH in H. lia.
Qed.

Lemma find_bound (s sub : str) (i : nat) :
  find s sub = Some i -> i + length sub <= length s.
Proof.
  revert i. induction s as [|c s IH]; intros i H.
  - cbn [find] in H. destruct (startswith [] sub) eqn:E; [|discriminate].
    injection H as <-. apply startswith_length in E. simpl in *. lia.
  - cbn [find] in H. destruct (startswith (c :: s) sub) eqn:E.
    + injection H as <-. apply startswith_length in E. simpl in *. lia.
    + destruct (find s sub) as [j|]; [|discriminate].
      injection H as <-. specialize (IH _ eq_refl). simpl. lia.
Qed.

Definition inspect {A : Type} (x : A) : { y : A | x = y } := exist _ x eq_refl.

(** The loop of [s.split(sep)] for a non-empty separator [c :: sep']:
    cut at the first occurrence found from the current position and go on
    after it. *)
Equations? split_on (c : char) (sep' : str) (s : str) : list str
  by wf (length s) lt :=
  split_on c sep' s with inspect (find s (c :: sep')) := {
    | exist _ (Some i) H =>
        firstn i s :: split_on c sep' (skipn (i + S (length sep')) s);
    | exist _ None _ => [s] }.
Proof.
  apply find_bound in H. simpl in H. rewrite length_skipn. lia.
Qed.

(** [s.split(sep)]: an empty separator is a [ValueError]. *)
Definition split (s sep : str) : result (list str) :=
  match sep with
  | [] => Raise (Exc ValueError (py "empty separator"))
  | c :: sep' => Return (split_on c sep' s)
  end.

(** [l[-1]] *)
Definition last_item (l : list str) : result str :=
  match rev l with
  | [] => Raise (Exc IndexError (py "list index out of range"))
  | x :: _ => Return x
  end.

End PyList.
Import PyList.

(** ** The fragment of Python's [re] used by the bot

    A backtracking matcher in continuation-passing style, with Python's
    priorities: a greedy star tries the longest repetition first, a lazy
    star the shortest, and [re.search] returns the match that starts
    leftmost. *)

Module Re.

(** Single-character items: [.] (anything but a newline; no [DOTALL]
    flag is given) and a bracket class such as [[\n]]. *)
Inductive cset : Type :=
| Dot
| Class (cs : list char).

Definition cset_mem (c : cset) (a : char) : bool :=
  match c with
  | Dot => negb (N.eqb a newline)
  | Class cs => existsb (N.eqb a) cs
  end.

Inductive regex : Type :=
| Lit (p : str)                      (* literal text *)
| Star (c : cset) (greedy : bool)    (* [c*] when greedy, [c*?] when not *)
| Group (n : nat) (r : regex)        (* capturing group number [n] *)
| Cat (r1 r2 : regex).

(** The groups of a match, most recently closed first. *)
Definition groups := list (nat * str).

Section Star.
Variable R : Type.
Variable p : char -> bool.
Variable k : str -> option R.

Fixpoint star_greedy (s : str) : option R :=
  match s with
  | c :: s' =>
      if p c then
        match star_greedy s' with
        | Some r => Some r
        | None => k s
        end
      else k s
  | [] => k s
  end.

Fixpoint star_lazy (s : str) : option R :=
  match k s with
  | Some r => Some r
  | None =>
      match s with
      | c :: s' => if p c then star_lazy s' else None
      | [] => None
      end
  end.
End Star.

(** [rmatch r s g k]: match [r] at the start of [s], then hand the rest
    of the input and the groups to [k]; when [k] fails, backtrack. *)
Fixpoint rmatch (r : regex) (s : str) (g : groups)
    (k : str -> groups -> option groups) : option groups :=
  match r with
  | Lit p => if startswith s p then k (skipn (length p) s) g else None
  | Star c true => star_greedy (cset_mem c) (fun s' => k s' g) s
  | Star c false => star_lazy (cset_mem c) (fun s' => k s' g) s
  | Group n r' =>
      rmatch r' s g
        (fun s' g' => k s' ((n, firstn (length s - length s') s) :: g'))
  | Cat r1 r2 => rmatch r1 s g (fun s' g' => rmatch r2 s' g' k)
  end.

(** A match anchored at the start of [s]; group 0 is the whole match. *)
Definition match_here (r : regex) (s : str) : option groups :=
  rmatch (Group 0 r) s [] (fun _ g => Some g).

(** [re.search(r, s)] *)
Fixpoint search (r : regex) (s : str) : option groups :=
  match match_here r s with
  | Some g => Some g
  | None =>
      match s with
      | [] => None
      | _ :: s' => search r s'
      end
  end.

(** [m.group(n)]; [None] when the group took no part in the match. *)
Fixpoint group (m : groups) (n : nat) : option str :=
  match m with
  | [] => None
  | (i, x) :: m' => if Nat.eqb i n then Some x else group m' n
  end.

End Re.

(** ** [bots/chat_bot/base.py] *)

Module ChatBot.

Import Re.

(** The fields of a [ChatBot] that the modelled methods read.  The
    class default of [ai_prefix] is ["AI"]. *)
Record t : Type := Make {
  ai_prefix : str;
  allowed_tools : list str
}.

Definition default_ai_prefix : str := py "AI".

(** [finish_tool_name] *)
Definition finish_tool_name (self : t) : str := ai_prefix self.

(** The pattern of [_extract_tool_and_input]: the text [Action: ], then
    group 1, a lazy run of [.]; a greedy run of newlines; the text
    [Action Input: ]; then group 2, a greedy run of [.]. *)
Definition regex : Re.regex :=
  Cat (Lit (py "Action: "))
   (Cat (Group 1 (Star Dot false))
     (Cat (Star (Class [newline]) true)
       (Cat (Lit (py "Action Input: "))
         (Group 2 (Star Dot true))))).

(** [x.strip()] on the value of [m.group(n)], which is [None] when the
    group took no part in the match. *)
Definition group_str (m : groups) (n : nat) : result str :=
  match group m n with
  | Some x => Return x
  | None =>
      Raise (Exc AttributeError
               (py "'NoneType' object has no attribute 'strip'"))
  end.

(** Lines 85-91: the action branch.  [re.search] is an argument, so that
    a statement can say whether the branch calls it. *)
Definition parse_action
    (re_search : Re.regex -> str -> option groups) (llm_output : str)
  : result (str * str) :=
  match re_search regex llm_output with
  | None =>
      Raise (Exc ValueError
               (py "Could not parse LLM output: `" ++ llm_output ++ py "`"))
  | Some m =>
      action <- group_str m 1 ;;
      action_input <- group_str m 2 ;;
      Return (strip action,
              strip_chars [dquote] (strip_chars (py " ") action_input))
  end.

Definition _extract_tool_and_input_with
    (re_search : Re.regex -> str -> option groups)
    (self : t) (llm_output : str) : result (str * str) :=
  if contains llm_output (ai_prefix self ++ py ":") then
    parts <- split llm_output (ai_prefix self ++ py ":") ;;
    answer <- last_item parts ;;
    Return (ai_prefix self, strip answer)
  else parse_action re_search llm_output.

(** [_extract_tool_and_input] *)
Definition _extract_tool_and_input (self : t) (llm_output : str)
  : result (str * str) :=
  _extract_tool_and_input_with Re.search self llm_output.

(** A tool as [from_llm_and_tools] sees it. *)
Record BaseTool : Type := Tool { name : str; description : str }.

(** [from_llm_and_tools].  [cls._validate_tools] is inherited from [Bot]
    and dispatched on [cls]; it is an argument here.  The prompt and the
    [LLMChain] built from it are not read by any method modelled in this
    file and are left out of [t]. *)
Definition from_llm_and_tools
    (_validate_tools : list BaseTool -> result unit)
    (tools : list BaseTool) (ai_prefix : str) : result t :=
  _ <- _validate_tools tools ;;
  let tool_names := map name tools in
  Return (Make ai_prefix tool_names).

End ChatBot.

(** ** The tool adapters *)

Module Tools.

(** [str(l)] for a list [l]: the [repr] of the items, separated by a comma
    and a space, between square brackets. *)
Fixpoint join (sep : str) (l : list str) : str :=
  match l with
  | [] => []
  | [x] => x
  | x :: l' => x ++ sep ++ join sep l'
  end.

Definition str_of_list {A : Type} (repr : A -> str) (l : list A) : str :=
  py "[" ++ join (py ", ") (map repr l) ++ py "]".

(** [tools/google_search/wrapper.py] is an external collaborator: the
    type [item] of one search result and the two methods of the wrapper
    are taken as given. *)
Module GoogleSearchAPIWrapper.
Record t (item : Type) : Type := Make {
  run : str -> result str;
  results : str -> Z -> result (list item)
}.
End GoogleSearchAPIWrapper.

Module GoogleSearch.
Section WithItem.
Variable item : Type.

Record t : Type := Make { api_wrapper : GoogleSearchAPIWrapper.t item }.

Definition name : str := py "Google Search".

Definition _run (self : t) (query : str) : result str :=
  GoogleSearchAPIWrapper.run (api_wrapper self) query.

(** The coroutine of [_arun], awaited. *)
Definition _arun (self : t) (query : str) : result str :=
  Raise (Exc NotImplementedError
           (py "GoogleSearchRun does not support async")).
End WithItem.
End GoogleSearch.

Module GoogleSearchResults.
Section WithItem.
Variable item : Type.
(** [repr] of one search result, for [str] of the list. *)
Variable repr_item : item -> str.

Record t : Type := Make {
  num_results : Z;
  api_wrapper : GoogleSearchAPIWrapper.t item
}.

(** A tool built without [num_results]: the class gives it the value 3. *)
Definition init (api_wrapper : GoogleSearchAPIWrapper.t item) : t :=
  {| num_results := 3; api_wrapper := api_wrapper |}.

Definition name : str := py "Google Search Results JSON".

Definition _run (self : t) (query : str) : result str :=
  l <- GoogleSearchAPIWrapper.results (api_wrapper self) query
         (num_results self) ;;
  Return (str_of_list repr_item l).

Definition _arun (self : t) (query : str) : result str :=
  Raise (Exc NotImplementedError
           (py "GoogleSearchRun does not support async")).
End WithItem.
End GoogleSearchResults.

Module RequestsWrapper.
Record t : Type := Make { get : str -> result str }.
End RequestsWrapper.

Inductive level : Type := DEBUG | ERROR.

Module BrowserTool.
Section WithEnv.
(** [filter_text] and [RequestsWrapper] come from
    [tools/web_requests/__init__.py], and [str] and [repr] of an exception
    depend on its class: all are taken as given. *)
Variable filter_text : str -> result str.
Variable str_exc : exception -> str.
Variable repr_exc : exception -> str.

Record t : Type := Make { requests_wrapper : RequestsWrapper.t }.

Definition default_tool_name : str := py "browser".
Definition name : str := default_tool_name.

(** [_run] returns the records it sent to [LOG] next to its outcome.
    [except Exception] does not catch what derives from [BaseException]
    alone. *)
Definition _run (self : t) (url : str) : list (level * str) * result str :=
  match
    html <- RequestsWrapper.get (requests_wrapper self) url ;;
    filter_text html
  with
  | Return _content =>
      ([(DEBUG, py "[browser] output: " ++ _content)], Return _content)
  | Raise e =>
      if is_Exception (exc_class_of e)
      then ([(ERROR, py "[browser] " ++ str_exc e)], Return (repr_exc e))
      else ([], Raise e)
  end.

Definition _arun (self : t) (url : str) : result str :=
  Raise (Exc NotImplementedError (py "not support run this tool in async")).
End WithEnv.
End BrowserTool.

(** The tools of the three files, and [_arun] dispatched on the class of
    the tool. *)
Inductive tool (item : Type) : Type :=
| AGoogleSearch (t : GoogleSearch.t item)
| AGoogleSearchResults (t : GoogleSearchResults.t item)
| ABrowserTool (t : BrowserTool.t).
Arguments AGoogleSearch {item} t.
Arguments AGoogleSearchResults {item} t.
Arguments ABrowserTool {item} t.

Definition _arun {item : Type} (t : tool item) (input : str) : result str :=
  match t with
  | AGoogleSearch t' => GoogleSearch._arun t' input
  | AGoogleSearchResults t' => GoogleSearchResults._arun t' input
  | ABrowserTool t' => BrowserTool._arun t' input
  end.

End Tools.

(** ** [ChatBot], continued: the properties and [create_prompt] *)

Module ChatBotPrompt.

(** [_bot_type] *)
Definition _bot_type : str := py "chat-bot".

(** [observation_prefix] *)
Definition observation_prefix : str := py "Observation: ".

(** [llm_prefix] *)
Definition llm_prefix : str := py "Thought:".

(** The line of one tool: the text [> ], the name, a colon and a space,
    the description. *)
Definition tool_string (tool : ChatBot.BaseTool) : str :=
  py "> " ++ ChatBot.name tool ++ py ": " ++ ChatBot.description tool.

(** [tool_strings]: the lines of the tools, joined by a newline. *)
Definition tool_strings (tools : list ChatBot.BaseTool) : str :=
  Tools.join [newline] (map tool_string tools).

(** [tool_names]: the names of the tools, joined by a comma and a space. *)
Definition tool_names (tools : list ChatBot.BaseTool) : str :=
  Tools.join (py ", ") (map ChatBot.name tools).

(** The default of [input_variables]. *)
Definition default_input_variables : list str :=
  [py "input"; py "chat_history"; py "bot_scratchpad"].

Section CreatePrompt.
(** [str.format] with the keywords [tool_names], [ai_prefix] and
    [human_prefix], the class [PromptTemplate] of
    [chatgpt_tool_hub/prompts] and [str] of a prompt are taken as given. *)
Variable format : str -> str -> str -> str -> result str.
Variable PromptTemplate : Type.
Variable new_PromptTemplate : str -> list str -> result PromptTemplate.
Variable str_prompt : PromptTemplate -> str.

(** Lines 62-69 of [create_prompt]: the text of the template. *)
Definition template_of (tools : list ChatBot.BaseTool)
    (prefix suffix format_instructions ai_prefix human_prefix : str)
  : result str :=
  format_instructions' <-
    format format_instructions (tool_names tools) ai_prefix human_prefix ;;
  Return (Tools.join [newline; newline]
            [prefix; tool_strings tools; format_instructions'; suffix]).

(** [create_prompt], with the record it sends to [LOG] next to its
    outcome. *)
Definition create_prompt (tools : list ChatBot.BaseTool)
    (prefix suffix format_instructions ai_prefix human_prefix : str)
    (input_variables : option (list str))
  : list (Tools.level * str) * result PromptTemplate :=
  match
    template <- template_of tools prefix suffix format_instructions
                  ai_prefix human_prefix ;;
    new_PromptTemplate template
      (match input_variables with
       | None => default_input_variables
       | Some l => l
       end)
  with
  | Return prompt =>
      ([(Tools.DEBUG,
         [newline] ++ py "now prompt: " ++ str_prompt prompt ++ [newline])],
       Return prompt)
  | Raise e => ([], Raise e)
  end.
End CreatePrompt.

End ChatBotPrompt.

(** ** Ends of a string, and samples for the examples *)

Module Ends.

(** The first character of [s] satisfies [p]. *)
Definition starts_with_char (p : char -> bool) (s : str) : bool :=
  match s with
  | [] => false
  | c :: _ => p c
  end.

(** The last character of [s] satisfies [p]. *)
Definition ends_with_char (p : char -> bool) (s : str) : bool :=
  starts_with_char p (rev s).

Definition is_dquote (c : char) : bool := N.eqb c dquote.

(** A wrapper whose request is interrupted from the keyboard. *)
Definition interrupted : exception :=
  Exc KeyboardInterrupt [].

Definition interrupted_wrapper : Tools.RequestsWrapper.t :=
  Tools.RequestsWrapper.Make (fun _ => Raise interrupted).

(** A wrapper whose request times out. *)
Definition timed_out : exception :=
  Exc (OtherException "Timeout") (py "timed out").

Definition timing_out_wrapper : Tools.RequestsWrapper.t :=
  Tools.RequestsWrapper.Make (fun _ => Raise timed_out).

Definition sample_tools : list ChatBot.BaseTool :=
  [ChatBot.Tool (py "Google Search") (py "A wrapper around Google Search.");
   ChatBot.Tool (py "browser") (py "A portal to the internet.")].

End Ends.
Import Ends.

(** ** Shapes of model output that the statements speak about *)

Module Shapes.

(** Text [pre], then an action block: [Action: x], the separator [sep],
    [Action Input: y], and the text [post]. *)
Definition action_text (pre x sep y post : str) : str :=
  pre ++ py "Action: " ++ x ++ sep ++ py "Action Input: " ++ y ++ post.

(** The language of the pattern, read off the regular expression: some
    [Action: ], a run without newline, newlines, [Action Input: ]. *)
Definition has_action_pattern (s : str) : Prop :=
  exists pre x nls rest,
    s = pre ++ py "Action: " ++ x ++ nls ++ py "Action Input: " ++ rest /\
    ~ In newline x /\ Forall (fun c => c = newline) nls.

(** [post] is empty or starts a new line: [y] before it runs to the end
    of its line. *)
Definition line_end (post : str) : Prop :=
  post = [] \/ exists post', post = newline :: post'.

(** What the code does to the captured input: [strip] with a space as
    its argument, then [strip] with a double quote as its argument. *)
Definition clean_input (y : str) : str :=
  strip_chars [dquote] (strip_chars (py " ") y).

(** The spec's reading of the same step, "stripped of surrounding quote
    characters and whitespace": every leading and trailing character that
    is whitespace or a double quote goes. *)
Definition spec_clean_input (y : str) : str :=
  strip_by (fun c => isspace c || N.eqb c dquote) y.

(** The spec's other reading, "trim whitespace and surrounding quote
    characters": whitespace first, then quotes. *)
Definition spec_clean_input_seq (y : str) : str :=
  strip_chars [dquote] (strip y).

(** A search wrapper whose service is unreachable. *)
Definition unreachable : exception :=
  Exc (OtherException "ConnectionError") (py "Max retries exceeded").

Definition failing_wrapper : Tools.GoogleSearchAPIWrapper.t unit :=
  Tools.GoogleSearchAPIWrapper.Make (fun _ => Raise unreachable)
    (fun _ _ => Raise unreachable).

(** What follows group 1 in the pattern. *)
Definition tail_regex : Re.regex :=
  Re.Cat (Re.Star (Re.Class [newline]) true)
    (Re.Cat (Re.Lit (py "Action Input: ")) (Re.Group 2 (Re.Star Re.Dot true))).

(** The continuation of [match_here] on [s0]: it records group 0. *)
Definition whole (s0 : str) : str -> Re.groups -> option Re.groups :=
  fun s' g' => Some ((0, firstn (length s0 - length s') s0) :: g').

(** A search wrapper that answers from a fixed list. *)
Definition canned_wrapper : Tools.GoogleSearchAPIWrapper.t str :=
  Tools.GoogleSearchAPIWrapper.Make (fun q => Return q)
    (fun _ n => Return (firstn (Z.to_nat n) [py "a"; py "b"; py "c"; py "d"])).

(** Concrete bots and outputs for the examples. *)
Definition chat_bot : ChatBot.t := ChatBot.Make ChatBot.default_ai_prefix [].

Definition answer_output : str :=
  py "Thought: done" ++ [newline] ++ py "AI: Paris is the capital. ".

Definition tab_output : str :=
  py "Action: X" ++ [newline] ++ py "Action Input: Y" ++ [9%N].

End Shapes.
Import Shapes.

(** * Facts about the string operations *)

Section StrFacts.

Lemma startswith_nil (s : str) : startswith s [] = true.
Proof. destruct s; reflexivity. Qed.

Lemma startswith_iff (s p : str) :
startswith s p = true <-> exists r, s = p ++ r.
Proof.
revert s. induction p as [|a p IH]; intros s.
- rewrite startswith_nil. split; [intros _; exists s; reflexivity | reflexivity].
- destruct s as [|b s]; simpl.
  + split; [discriminate | intros [r H]; discriminate].
  + rewrite andb_true_iff, N.eqb_eq, IH. split.
    * intros [-> [r ->]]. exists r. reflexivity.
    * intros [r [= -> ->]]. split; [reflexivity | exists r; reflexivity].
Qed.

Lemma startswith_app (p r : str) : startswith (p ++ r) p = true.
Proof. apply startswith_iff. exists r. reflexivity. Qed.

Lemma startswith_skipn (s p : str) :
startswith s p = true -> s = p ++ skipn (length p) s.
Proof.
intros H. apply startswith_iff in H. destruct H as [r ->].
rewrite skipn_app, skipn_all, Nat.sub_diag. reflexivity.
Qed.

Lemma contains_iff (s sub : str) :
contains s sub = true <-> exists a b, s = a ++ sub ++ b.
Proof.
induction s as [|c s IH]; cbn [contains]; rewrite orb_true_iff.
- split.
  + intros [H | H]; [|discriminate].
    apply startswith_iff in H. destruct H as [r H]. exists [], r. exact H.
  + intros [a [b H]]. left. apply startswith_iff.
    destruct a; [exists b; exact H | discriminate].
- rewrite IH. split.
  + intros [H | [a [b ->]]].
    * apply startswith_iff in H. destruct H as [r H]. exists [], r. exact H.
    * exists (c :: a), b. reflexivity.
  + intros [[|a0 a] [b H]].
    * left. apply startswith_iff. exists b. exact H.
    * right. injection H as _ ->. exists a, b. reflexivity.
Qed.

Lemma contains_false_app_r (a b sub : str) :
contains (a ++ b) sub = false -> contains b sub = false.
Proof.
intros H. destruct (contains b sub) eqn:E; [|reflexivity].
apply contains_iff in E. destruct E as [x [y ->]].
rewrite <- H. symmetry. apply contains_iff.
exists (a ++ x), y. rewrite <- app_assoc. reflexivity.
Qed.

Lemma contains_false_startswith (s sub : str) :
contains s sub = false -> startswith s sub = false.
Proof.
destruct s; cbn [contains]; rewrite orb_false_iff; tauto.
Qed.

Lemma find_None (s sub : str) :
find s sub = None <-> contains s sub = false.
Proof.
induction s as [|c s IH]; cbn [find contains].
- destruct (startswith [] sub); simpl; split; congruence.
- destruct (startswith (c :: s) sub); simpl.
  + split; discriminate.
  + rewrite <- IH. destruct (find s sub); simpl; split; congruence.
Qed.

Lemma find_Some (s sub : str) (i : nat) :
find s sub = Some i ->
s = firstn i s ++ sub ++ skipn (i + length sub) s.
Proof.
revert i. induction s as [|c s IH]; intros i H; cbn [find] in H.
- destruct (startswith [] sub) eqn:E; [|discriminate].
  injection H as <-. simpl. apply startswith_skipn. exact E.
- destruct (startswith (c :: s) sub) eqn:E.
  + injection H as <-. cbn [firstn app Nat.add]. apply startswith_skipn. exact E.
  + destruct (find s sub) as [j|] eqn:F; [|discriminate].
    injection H as <-. cbn [firstn skipn Nat.add app]. f_equal. apply IH. reflexivity.
Qed.

(** When the start of [u ++ q] reads [p], either [p] lies within [u], or
  [u] is used up and the rest of [p] starts [q]. *)
Lemma startswith_app_cases (u q p : str) :
startswith (u ++ q) p = true ->
startswith u p = true \/ exists p2, p = u ++ p2 /\ startswith q p2 = true.
Proof.
revert p. induction u as [|c u IH]; intros p H.
- right. exists p. split; [reflexivity | exact H].
- destruct p as [|a p]; [left; reflexivity|].
  simpl in H. apply andb_true_iff in H. destruct H as [Hc H].
  apply N.eqb_eq in Hc. subst c.
  destruct (IH _ H) as [H1 | [p2 [-> H2]]].
  + left. simpl. rewrite N.eqb_refl. exact H1.
  + right. exists p2. split; [reflexivity | exact H2].
Qed.

(** A text whose first character does not occur again in it cannot
  overlap a later copy of itself. *)
Lemma startswith_no_overlap (a : char) (p' u r : str) :
~ In a p' -> u <> [] ->
startswith (u ++ (a :: p') ++ r) (a :: p') = true ->
startswith u (a :: p') = true.
Proof.
intros Hnot Hu H. apply startswith_app_cases in H.
destruct H as [H | [p2 [Hp H2]]]; [exact H|].
destruct p2 as [|b p2].
- rewrite app_nil_r in Hp. subst u. apply startswith_iff. exists []. symmetry. apply app_nil_r.
- exfalso. simpl in H2. apply andb_true_iff in H2. destruct H2 as [Hb _].
  apply N.eqb_eq in Hb. subst b.
  destruct u as [|c u]; [congruence|].
  injection Hp as _ Hp. apply Hnot. rewrite Hp. apply in_or_app. right. left. reflexivity.
Qed.

End StrFacts.

(** * Facts about [split] *)

Section SplitFacts.

Lemma split_on_unfold (c : char) (sep' s : str) :
split_on c sep' s =
match find s (c :: sep') with
| Some i => firstn i s :: split_on c sep' (skipn (i + S (length sep')) s)
| None => [s]
end.
Proof.
funelim (split_on c sep' s).
- rewrite H. reflexivity.
- rewrite e. reflexivity.
Qed.

Lemma last_item_cons (x : str) (l : list str) :
l <> [] -> last_item (x :: l) = last_item l.
Proof.
intros Hl. unfold last_item. simpl.
destruct (rev l) as [|y r] eqn:E.
- exfalso. apply Hl. apply (f_equal (@rev str)) in E.
  rewrite rev_involutive in E. exact E.
- reflexivity.
Qed.

Lemma split_on_not_nil (c : char) (sep' s : str) : split_on c sep' s <> [].
Proof.
rewrite split_on_unfold. destruct (find s (c :: sep')); discriminate.
Qed.

(** The last piece of a split holds no separator; it is the whole string
  when the string holds none, and otherwise what follows a separator. *)
Lemma split_on_last (c : char) (sep' s : str) :
exists t,
  last_item (split_on c sep' s) = Return t /\
  contains t (c :: sep') = false /\
  (if contains s (c :: sep')
   then exists pre, s = pre ++ (c :: sep') ++ t
   else t = s).
Proof.
remember (length s) as n eqn:Hn. revert s Hn.
induction n as [n IH] using lt_wf_ind. intros s Hn.
rewrite split_on_unfold.
destruct (find s (c :: sep')) as [i|] eqn:F.
- pose proof (find_Some _ _ F) as Hs.
  pose proof (find_bound _ _ F) as Hb.
  change (i + S (length sep')) with (i + length (c :: sep')).
  set (s2 := skipn (i + length (c :: sep')) s) in *.
  destruct (IH (length s2)) with (s := s2) as [t [Hlast [Hno Hdec]]].
  + subst s2 n. rewrite length_skipn. simpl in *. lia.
  + reflexivity.
  + exists t. split; [|split].
    * rewrite last_item_cons by apply split_on_not_nil. exact Hlast.
    * exact Hno.
    * replace (contains s (c :: sep')) with true.
      2:{ symmetry. apply contains_iff. eexists _, _. exact Hs. }
      destruct (contains s2 (c :: sep')).
      -- destruct Hdec as [pre Hpre].
         exists (firstn i s ++ (c :: sep') ++ pre).
         rewrite Hs at 1. rewrite Hpre at 1.
         rewrite <- !app_assoc. reflexivity.
      -- exists (firstn i s). rewrite Hdec. exact Hs.
- pose proof (proj1 (find_None _ _) F) as Hno. exists s. rewrite Hno.
  repeat split; reflexivity.
Qed.

End SplitFacts.

(** * Facts about the matcher *)

Section ScanFacts.
Variable p : char -> bool.

Lemma takewhile_dropwhile (s : str) : takewhile p s ++ dropwhile p s = s.
Proof.
  induction s as [|c s IH]; simpl; [reflexivity|].
  destruct (p c); simpl; [f_equal; exact IH | reflexivity].
Qed.

Lemma takewhile_all (s : str) : forallb p (takewhile p s) = true.
Proof.
  induction s as [|c s IH]; simpl; [reflexivity|].
  destruct (p c) eqn:E; simpl; [rewrite E; exact IH | reflexivity].
Qed.

Lemma dropwhile_head (s : str) :
  dropwhile p s = [] \/
  exists c r, dropwhile p s = c :: r /\ p c = false.
Proof.
  induction s as [|c s IH]; simpl; [left; reflexivity|].
  destruct (p c) eqn:E; [exact IH | right; exists c, s; split; [reflexivity | exact E]].
Qed.

Lemma dropwhile_app_all (x r : str) :
  forallb p x = true -> dropwhile p (x ++ r) = dropwhile p r.
Proof.
  induction x as [|c x IH]; simpl; [reflexivity|].
  rewrite andb_true_iff. intros [-> H]. apply IH. exact H.
Qed.

Lemma takewhile_app_all (x r : str) :
  forallb p x = true -> takewhile p (x ++ r) = x ++ takewhile p r.
Proof.
  induction x as [|c x IH]; simpl; [reflexivity|].
  rewrite andb_true_iff. intros [-> H]. f_equal. apply IH. exact H.
Qed.

Lemma dropwhile_stop (s : str) :
  (s = [] \/ exists c r, s = c :: r /\ p c = false) -> dropwhile p s = s.
Proof.
  intros [-> | [c [r [-> H]]]]; simpl; [reflexivity | rewrite H; reflexivity].
Qed.

Lemma takewhile_stop (s : str) :
  (s = [] \/ exists c r, s = c :: r /\ p c = false) -> takewhile p s = [].
Proof.
  intros [-> | [c [r [-> H]]]]; simpl; [reflexivity | rewrite H; reflexivity].
Qed.

Lemma firstn_dropwhile (s : str) :
  firstn (length s - length (dropwhile p s)) s = takewhile p s.
Proof.
  rewrite <- (takewhile_dropwhile s) at 1 3.
  rewrite length_app, Nat.add_sub, firstn_app, Nat.sub_diag, firstn_all.
  simpl. apply app_nil_r.
Qed.
End ScanFacts.

Section StarFacts.
Import Re.
Variable R : Type.
Variable p : char -> bool.
Variable k : str -> option R.

(** A greedy star whose continuation always succeeds takes the longest
    run. *)
Lemma star_greedy_total (s : str) :
  (forall s', k s' <> None) -> star_greedy p k s = k (dropwhile p s).
Proof.
  intros Hk. induction s as [|c s IH]; simpl; [reflexivity|].
  destruct (p c); [|reflexivity].
  rewrite IH. destruct (k (dropwhile p s)) eqn:E; [reflexivity|].
  exfalso. exact (Hk _ E).
Qed.

(** So does one whose continuation cannot start with a character of
    the run. *)
Lemma star_greedy_det (s : str) :
  (forall c s', p c = true -> k (c :: s') = None) ->
  star_greedy p k s = k (dropwhile p s).
Proof.
  intros Hk. induction s as [|c s IH]; simpl; [reflexivity|].
  destruct (p c) eqn:E; [|reflexivity].
  rewrite IH. destruct (k (dropwhile p s)); [reflexivity|].
  apply Hk. exact E.
Qed.

(** A lazy star stops at the first place where the continuation
    succeeds. *)
Lemma star_lazy_first (x rest : str) (r : R) :
  forallb p x = true ->
  (forall j, j < length x -> k (skipn j x ++ rest) = None) ->
  k rest = Some r ->
  star_lazy p k (x ++ rest) = Some r.
Proof.
  intros Hx Hfail Hk. induction x as [|c x IH].
  - simpl. destruct rest; simpl; rewrite Hk; reflexivity.
  - simpl in Hx. apply andb_true_iff in Hx. destruct Hx as [Hc Hx].
    pose proof (Hfail 0 ltac:(simpl; lia)) as H0. cbn [skipn app] in H0.
    cbn [app star_lazy]. rewrite H0, Hc.
    apply IH; [exact Hx|].
    intros j Hj. apply (Hfail (S j)). simpl. lia.
Qed.

Lemma star_lazy_sound (s : str) (r : R) :
  star_lazy p k s = Some r ->
  exists x rest, s = x ++ rest /\ forallb p x = true /\ k rest = Some r.
Proof.
  induction s as [|c s IH]; cbn [star_lazy].
  - destruct (k []) eqn:E; [|discriminate].
    intros [= ->]. exists [], []. auto.
  - destruct (k (c :: s)) eqn:E.
    + intros [= ->]. exists [], (c :: s). auto.
    + destruct (p c) eqn:Hc; [|discriminate].
      intros H. destruct (IH H) as [x [rest [-> [Hx Hk]]]].
      exists (c :: x), rest. simpl. rewrite Hc. auto.
Qed.

Lemma star_lazy_complete (x rest : str) :
  forallb p x = true -> k rest <> None ->
  star_lazy p k (x ++ rest) <> None.
Proof.
  intros Hx Hk. induction x as [|c x IH].
  - simpl. destruct rest; simpl; destruct (k _); congruence.
  - simpl in Hx. apply andb_true_iff in Hx. destruct Hx as [Hc Hx].
    cbn [app star_lazy]. destruct (k (c :: x ++ rest)); [discriminate|].
    rewrite Hc. apply IH. exact Hx.
Qed.
End StarFacts.

(** * The action pattern *)

Section ActionPattern.
Import Re ChatBot.

Local Abbreviation A := (py "Action: ").
Local Abbreviation AI := (py "Action Input: ").
Local Abbreviation dot := (cset_mem Dot).
Local Abbreviation isnl := (cset_mem (Class [newline])).

Lemma dot_true (c : char) : dot c = true <-> c <> newline.
Proof.
  simpl. rewrite negb_true_iff, N.eqb_neq. tauto.
Qed.

Lemma isnl_true (c : char) : isnl c = true <-> c = newline.
Proof.
  simpl. rewrite orb_false_r. apply N.eqb_eq.
Qed.

Lemma forallb_dot (x : str) : forallb dot x = true <-> ~ In newline x.
Proof.
  rewrite forallb_forall. split.
  - intros H Hin. apply H in Hin. apply dot_true in Hin. congruence.
  - intros H c Hc. apply dot_true. intros ->. exact (H Hc).
Qed.

Lemma forallb_isnl (x : str) :
  forallb isnl x = true <-> Forall (fun c => c = newline) x.
Proof.
  rewrite forallb_forall, Forall_forall. split; intros H c Hc.
  - apply isnl_true. apply H. exact Hc.
  - apply isnl_true. apply H. exact Hc.
Qed.

Lemma rmatch_tail (s : str) (g : groups)
    (k : str -> groups -> option groups) :
  (forall s' g', k s' g' <> None) ->
  rmatch tail_regex s g k =
  if startswith (dropwhile isnl s) AI
  then k (dropwhile dot (skipn (length AI) (dropwhile isnl s)))
         ((2, takewhile dot (skipn (length AI) (dropwhile isnl s))) :: g)
  else None.
Proof.
  intros Hk. cbn [rmatch tail_regex].
  rewrite star_greedy_det.
  - destruct (startswith (dropwhile isnl s) AI); [|reflexivity].
    rewrite star_greedy_total by (intros s'; apply Hk).
    rewrite firstn_dropwhile. reflexivity.
  - intros c s' Hc. apply isnl_true in Hc. subst c. reflexivity.
Qed.

Lemma match_here_regex (s0 : str) :
  match_here regex s0 =
  if startswith s0 A
  then star_lazy dot
         (fun s' =>
            rmatch tail_regex s'
              [(1, firstn (length (skipn (length A) s0) - length s')
                     (skipn (length A) s0))]
              (whole s0))
         (skipn (length A) s0)
  else None.
Proof. reflexivity. Qed.

Lemma search_unfold (r : Re.regex) (s : str) :
  search r s =
  match match_here r s with
  | Some g => Some g
  | None => match s with [] => None | _ :: s' => search r s' end
  end.
Proof. destruct s; reflexivity. Qed.

Lemma search_sound (r : Re.regex) (s : str) (m : groups) :
  search r s = Some m ->
  exists pre s', s = pre ++ s' /\ match_here r s' = Some m.
Proof.
  induction s as [|c s IH]; rewrite search_unfold.
  - destruct (match_here r []) eqn:E; [|discriminate].
    intros [= ->]. exists [], []. auto.
  - destruct (match_here r (c :: s)) eqn:E.
    + intros [= ->]. exists [], (c :: s). auto.
    + intros H. destruct (IH H) as [pre [s' [-> Hm]]].
      exists (c :: pre), s'. auto.
Qed.

Lemma search_complete (r : Re.regex) (pre s' : str) :
  match_here r s' <> None -> search r (pre ++ s') <> None.
Proof.
  intros H. induction pre as [|c pre IH].
  - simpl. rewrite search_unfold. destruct (match_here r s'); congruence.
  - rewrite search_unfold. destruct (match_here r ((c :: pre) ++ s')); [discriminate|].
    exact IH.
Qed.

Lemma whole_total (s0 : str) : forall s' g', whole s0 s' g' <> None.
Proof. intros s' g'. discriminate. Qed.

Lemma A_tail_no_head : ~ In 65%N (py "ction: ").
Proof. intros H. cbv in H. repeat (destruct H as [H | H]; [discriminate|]). exact H. Qed.

Lemma AI_tail_no_head : ~ In 65%N (py "ction Input: ").
Proof. intros H. cbv in H. repeat (destruct H as [H | H]; [discriminate|]). exact H. Qed.

Lemma AI_no_newline : ~ In newline AI.
Proof. intros H. cbv in H. repeat (destruct H as [H | H]; [discriminate|]). exact H. Qed.

Lemma skipn_app_exact (a r : str) : skipn (length a) (a ++ r) = r.
Proof. rewrite skipn_app, skipn_all, Nat.sub_diag. reflexivity. Qed.

Lemma firstn_app_exact (a r : str) :
  firstn (length (a ++ r) - length r) (a ++ r) = a.
Proof.
  rewrite length_app, Nat.add_sub, firstn_app, Nat.sub_diag, firstn_all.
  simpl. apply app_nil_r.
Qed.

Lemma firstn_of_app (s a r : str) :
  s = a ++ r -> firstn (length s - length r) s = a.
Proof. intros ->. apply firstn_app_exact. Qed.

(** After a run of newlines and the text [Action Input: ], group 2 takes
    the rest of the line. *)
Lemma tail_hit (nls rest : str) (g : groups)
    (k : str -> groups -> option groups) :
  (forall s' g', k s' g' <> None) ->
  Forall (fun c => c = newline) nls ->
  rmatch tail_regex (nls ++ AI ++ rest) g k =
  k (dropwhile dot rest) ((2, takewhile dot rest) :: g).
Proof.
  intros Hk Hnls. rewrite rmatch_tail by exact Hk.
  rewrite dropwhile_app_all by (apply forallb_isnl; exact Hnls).
  rewrite (dropwhile_stop isnl (s := AI ++ rest)).
  2:{ right. exists 65%N, (py "ction Input: " ++ rest). split; reflexivity. }
  rewrite startswith_app, skipn_app_exact. reflexivity.
Qed.

(** Inside an action name that does not hold the text [Action Input: ],
    what follows group 1 does not match. *)
Lemma tail_miss (x nls rest : str) (j : nat) (g : groups)
    (k : str -> groups -> option groups) :
  (forall s' g', k s' g' <> None) ->
  ~ In newline x -> Forall (fun c => c = newline) nls ->
  contains x AI = false -> j < length x ->
  rmatch tail_regex (skipn j x ++ nls ++ AI ++ rest) g k = None.
Proof.
  intros Hk Hx Hnls Hno Hj. rewrite rmatch_tail by exact Hk.
  assert (Hx' : x = firstn j x ++ skipn j x) by (symmetry; apply firstn_skipn).
  destruct (skipn j x) as [|c u] eqn:Eu.
  { apply (f_equal (@length char)) in Eu. rewrite length_skipn in Eu. simpl in Eu. lia. }
  assert (Hc : c <> newline).
  { intros ->. apply Hx. rewrite Hx'. apply in_or_app. right. left. reflexivity. }
  rewrite (dropwhile_stop isnl (s := (c :: u) ++ nls ++ AI ++ rest)).
  2:{ right. exists c, (u ++ nls ++ AI ++ rest). split; [reflexivity|].
      simpl. rewrite orb_false_r. apply N.eqb_neq. exact Hc. }
  destruct (startswith ((c :: u) ++ nls ++ AI ++ rest) AI) eqn:E; [|reflexivity].
  exfalso.
  assert (Hin : startswith (c :: u) AI = true -> False).
  { intros H. apply startswith_iff in H. destruct H as [r Hr].
    assert (contains x AI = true); [|congruence].
    apply contains_iff. exists (firstn j x), r. rewrite <- Hr. exact Hx'. }
  rewrite app_assoc in E.
  apply (startswith_no_overlap 65%N (py "ction Input: ")) in E;
    [|exact AI_tail_no_head|discriminate].
  apply startswith_app_cases in E. destruct E as [E | [p2 [Hp E]]].
  - exact (Hin E).
  - destruct p2 as [|b p2].
    + apply Hin. apply startswith_iff. exists []. rewrite app_nil_r in *. symmetry.
      exact Hp.
    + destruct nls as [|n nls]; [discriminate|].
      simpl in E. apply andb_true_iff in E. destruct E as [E _].
      apply N.eqb_eq in E. subst n. inversion Hnls as [|? ? Hb _]. subst b.
      apply AI_no_newline.
      refine (eq_ind_r (fun l => In newline l) _ Hp).
      apply in_or_app. right. left. reflexivity.
Qed.

(** The match anchored at a well-formed action block. *)
Lemma match_here_action (x nls y post : str) :
  ~ In newline x -> Forall (fun c => c = newline) nls -> ~ In newline y ->
  (post = [] \/ exists post', post = newline :: post') ->
  contains x AI = false ->
  match_here regex (A ++ x ++ nls ++ AI ++ y ++ post) =
  Some [(0, A ++ x ++ nls ++ AI ++ y); (2, y); (1, x)].
Proof.
  intros Hx Hnls Hy Hpost Hno.
  rewrite match_here_regex, startswith_app, skipn_app_exact.
  apply star_lazy_first.
  - apply forallb_dot. exact Hx.
  - intros j Hj. apply tail_miss; auto using whole_total.
  - rewrite tail_hit by auto using whole_total.
    assert (Hstop : post = [] \/ exists c r, post = c :: r /\ dot c = false).
    { destruct Hpost as [-> | [post' ->]]; [left; reflexivity|].
      right. exists newline, post'. split; reflexivity. }
    rewrite dropwhile_app_all, takewhile_app_all by (apply forallb_dot; exact Hy).
    rewrite dropwhile_stop, takewhile_stop, app_nil_r by exact Hstop.
    unfold whole. rewrite firstn_app_exact.
    replace (A ++ x ++ nls ++ AI ++ y ++ post)
      with ((A ++ x ++ nls ++ AI ++ y) ++ post)
      by (rewrite <- !app_assoc; reflexivity).
    rewrite firstn_app_exact. reflexivity.
Qed.

Lemma match_here_sound (s0 : str) (m : groups) :
  match_here regex s0 = Some m ->
  exists x nls y post,
    s0 = A ++ x ++ nls ++ AI ++ y ++ post /\
    ~ In newline x /\ Forall (fun c => c = newline) nls /\ ~ In newline y /\
    (post = [] \/ exists post', post = newline :: post') /\
    m = [(0, A ++ x ++ nls ++ AI ++ y); (2, y); (1, x)].
Proof.
  rewrite match_here_regex.
  destruct (startswith s0 A) eqn:EA; [|discriminate].
  apply startswith_skipn in EA. set (s1 := skipn (length A) s0) in *.
  intros H. apply star_lazy_sound in H.
  destruct H as [x [rest [Hs1 [Hx Hk]]]].
  rewrite rmatch_tail in Hk by apply whole_total.
  destruct (startswith (dropwhile isnl rest) AI) eqn:EAI; [|discriminate].
  apply startswith_skipn in EAI.
  set (s2 := skipn (length AI) (dropwhile isnl rest)) in *.
  pose proof (takewhile_dropwhile isnl rest) as Hrest.
  pose proof (takewhile_dropwhile dot s2) as Hs2.
  exists x, (takewhile isnl rest), (takewhile dot s2), (dropwhile dot s2).
  assert (Hs0 : s0 = A ++ x ++ takewhile isnl rest ++ AI
                       ++ takewhile dot s2 ++ dropwhile dot s2).
  { rewrite Hs2, <- EAI, Hrest, <- Hs1. exact EA. }
  split; [exact Hs0|]. split; [apply forallb_dot; exact Hx|].
  split; [apply forallb_isnl; apply takewhile_all|].
  split; [apply forallb_dot; apply takewhile_all|].
  split.
  - destruct (dropwhile_head dot s2) as [-> | [c [r [-> Hc]]]]; [left; reflexivity|].
    right. exists r. f_equal.
    destruct (N.eq_dec c newline) as [-> | Hne]; [reflexivity|].
    apply dot_true in Hne. congruence.
  - unfold whole in Hk. injection Hk as <-.
    rewrite (@firstn_of_app s0
               (A ++ x ++ takewhile isnl rest ++ AI ++ takewhile dot s2)
               (dropwhile dot s2))
      by (rewrite <- !app_assoc; exact Hs0).
    rewrite (@firstn_of_app s1 x rest) by exact Hs1.
    reflexivity.
Qed.

Lemma match_here_complete (x nls rest : str) :
  ~ In newline x -> Forall (fun c => c = newline) nls ->
  match_here regex (A ++ x ++ nls ++ AI ++ rest) <> None.
Proof.
  intros Hx Hnls.
  rewrite match_here_regex, startswith_app, skipn_app_exact.
  apply star_lazy_complete; [apply forallb_dot; exact Hx|].
  rewrite tail_hit by auto using whole_total. discriminate.
Qed.

(** Text without [Action: ] in front of an action block is skipped. *)
Lemma search_skip (pre r0 : str) :
  contains pre A = false ->
  search regex (pre ++ A ++ r0) = search regex (A ++ r0).
Proof.
  induction pre as [|c pre IH]; intros H; [reflexivity|].
  rewrite search_unfold, match_here_regex.
  destruct (startswith ((c :: pre) ++ A ++ r0) A) eqn:E.
  - exfalso.
    apply (startswith_no_overlap 65%N (py "ction: ")) in E;
      [|exact A_tail_no_head|discriminate].
    apply contains_false_startswith in H.
    change (startswith (c :: pre) A = true) in E. congruence.
  - cbn [app]. apply IH.
    apply (contains_false_app_r [c] pre). exact H.
Qed.

End ActionPattern.

(** * Properties of [_extract_tool_and_input] *)

Section Extract.
Import Re ChatBot.

Local Abbreviation A := (py "Action: ").
Local Abbreviation AI := (py "Action Input: ").

Lemma contains_false_app_l (a b sub : str) :
  contains (a ++ b) sub = false -> contains a sub = false.
Proof.
  intros H. destruct (contains a sub) eqn:E; [|reflexivity].
  apply contains_iff in E. destruct E as [x [y ->]].
  rewrite <- H. symmetry. apply contains_iff.
  exists x, (y ++ b). rewrite <- !app_assoc. reflexivity.
Qed.

Lemma dropwhile_app_some (p : char -> bool) (x r : str) :
  forallb p x = false -> dropwhile p (x ++ r) = dropwhile p x ++ r.
Proof.
  induction x as [|c x IH]; simpl; [discriminate|].
  destruct (p c); simpl; [exact IH | reflexivity].
Qed.

(** One more strippable character at the end changes nothing. *)
Lemma strip_by_snoc (p : char -> bool) (x : str) (c : char) :
  p c = true -> strip_by p (x ++ [c]) = strip_by p x.
Proof.
  intros Hc. unfold strip_by, rstrip_by, lstrip_by.
  destruct (forallb p x) eqn:E.
  - rewrite dropwhile_app_all by exact E.
    rewrite <- (app_nil_r x) at 1. rewrite dropwhile_app_all by exact E.
    simpl. rewrite Hc. reflexivity.
  - rewrite dropwhile_app_some by exact E.
    rewrite rev_app_distr. simpl. rewrite Hc. reflexivity.
Qed.

(** The pattern is found exactly in the texts of its language. *)
Lemma search_regex_iff (s : str) :
  search regex s <> None <-> has_action_pattern s.
Proof.
  split.
  - destruct (search regex s) as [m|] eqn:E; [intros _ | congruence].
    apply search_sound in E. destruct E as [pre [s' [-> Hm]]].
    apply match_here_sound in Hm.
    destruct Hm as [x [nls [y [post [-> [Hx [Hnls _]]]]]]].
    exists pre, x, nls, (y ++ post). auto.
  - intros [pre [x [nls [rest [-> [Hx Hnls]]]]]].
    apply search_complete. apply match_here_complete; assumption.
Qed.

(** The action branch on a well-formed first action block. *)
Lemma parse_action_block (pre x nls y post : str) :
  contains pre A = false ->
  ~ In newline x -> contains x AI = false ->
  Forall (fun c => c = newline) nls ->
  ~ In newline y -> line_end post ->
  parse_action search (action_text pre x nls y post) =
  Return (strip x, clean_input y).
Proof.
  intros Hpre Hx Hno Hnls Hy Hpost. unfold parse_action, action_text.
  rewrite search_skip by exact Hpre.
  rewrite search_unfold, match_here_action by assumption.
  reflexivity.
Qed.

Lemma extract_no_marker (self : ChatBot.t) (s : str) :
  contains s (ai_prefix self ++ py ":") = false ->
  _extract_tool_and_input self s = parse_action search s.
Proof.
  intros H. unfold _extract_tool_and_input, _extract_tool_and_input_with.
  rewrite H. reflexivity.
Qed.

Lemma extract_marker (self : ChatBot.t) (s : str) :
  contains s (ai_prefix self ++ py ":") = true ->
  exists pre t,
    s = pre ++ (ai_prefix self ++ py ":") ++ t /\
    contains t (ai_prefix self ++ py ":") = false /\
    (parts <- split s (ai_prefix self ++ py ":") ;; last_item parts)
      = Return t /\
    forall re_search,
      _extract_tool_and_input_with re_search self s
        = Return (ai_prefix self, strip t).
Proof.
  intros H. unfold _extract_tool_and_input_with. rewrite H.
  destruct (ai_prefix self ++ py ":") as [|c sep'] eqn:E.
  { apply app_eq_nil in E. destruct E as [_ E]. discriminate. }
  destruct (split_on_last c sep' s) as [t [Hlast [Hno Hdec]]].
  rewrite H in Hdec. destruct Hdec as [pre Hpre].
  exists pre, t. cbn [split bind]. rewrite Hlast. auto.
Qed.

(** Every parse through the action branch returns the action name of the
    leftmost match and the rest of the line after its [Action Input: ]. *)
Lemma extract_action_sound (self : ChatBot.t) (s : str) :
  contains s (ai_prefix self ++ py ":") = false ->
  has_action_pattern s ->
  exists pre x nls y post,
    s = action_text pre x nls y post /\
    ~ In newline x /\ Forall (fun c => c = newline) nls /\
    ~ In newline y /\ line_end post /\
    _extract_tool_and_input self s = Return (strip x, clean_input y).
Proof.
  intros Hm Hp. rewrite extract_no_marker by exact Hm.
  apply search_regex_iff in Hp.
  destruct (search regex s) as [m|] eqn:E; [|congruence].
  destruct (search_sound _ _ E) as [pre [s' [-> Hm']]].
  destruct (match_here_sound _ Hm')
    as [x [nls [y [post [-> [Hx [Hnls [Hy [Hpost ->]]]]]]]]].
  exists pre, x, nls, y, post. unfold parse_action. rewrite E.
  repeat split; assumption.
Qed.

End Extract.

(** * The claims *)

(** C1.  When the output holds the final-answer marker ([ai_prefix] and a
    colon), parsing ends with the pair of [ai_prefix] and the text after
    the marker, stripped of whitespace at both ends.  The text is the last
    piece of the split: a marker precedes it and it holds none. *)
Theorem final_answer_terminates (self : ChatBot.t) (llm_output : str) :
  contains llm_output (ChatBot.ai_prefix self ++ py ":") = true ->
  exists pre t,
    llm_output = pre ++ (ChatBot.ai_prefix self ++ py ":") ++ t /\
    contains t (ChatBot.ai_prefix self ++ py ":") = false /\
    (parts <- split llm_output (ChatBot.ai_prefix self ++ py ":") ;;
     last_item parts) = Return t /\
    ChatBot._extract_tool_and_input self llm_output
      = Return (ChatBot.ai_prefix self, strip t).
Proof.
  intros H. destruct (extract_marker self llm_output H)
    as [pre [t [Hs [Hno [Hsplit Hall]]]]].
  exists pre, t. repeat split; try assumption. apply Hall.
Qed.

Lemma final_answer_terminates_witness :
  contains answer_output (ChatBot.ai_prefix chat_bot ++ py ":") = true /\
  exists pre t,
    answer_output = pre ++ (ChatBot.ai_prefix chat_bot ++ py ":") ++ t /\
    contains t (ChatBot.ai_prefix chat_bot ++ py ":") = false /\
    (parts <- split answer_output (ChatBot.ai_prefix chat_bot ++ py ":") ;;
     last_item parts) = Return t /\
    ChatBot._extract_tool_and_input chat_bot answer_output
      = Return (ChatBot.ai_prefix chat_bot, strip t).
Proof.
  split; [reflexivity|].
  apply (final_answer_terminates chat_bot answer_output). reflexivity.
Defined.

(** C2, as the spec words it, fails: a tab after the input is whitespace,
    and the code leaves it in place, because it strips spaces only. *)
Lemma action_input_keeps_tab :
  contains tab_output (ChatBot.ai_prefix chat_bot ++ py ":") = false /\
  tab_output = action_text [] (py "X") [newline] (py "Y" ++ [9%N]) [] /\
  ChatBot._extract_tool_and_input chat_bot tab_output
    = Return (py "X", py "Y" ++ [9%N]) /\
  spec_clean_input (py "Y" ++ [9%N]) = py "Y" /\
  spec_clean_input_seq (py "Y" ++ [9%N]) = py "Y" /\
  ChatBot._extract_tool_and_input chat_bot tab_output
    <> Return (strip (py "X"), spec_clean_input (py "Y" ++ [9%N])).
Proof.
  repeat split; try reflexivity. vm_compute. discriminate.
Qed.

(** C2, amended.  Without the marker, on a first action block
    [Action: x], newline, [Action Input: y] up to the end of the line, the
    result is [x] stripped of whitespace, and [y] stripped of spaces and
    then of double quotes. *)
Theorem extract_action_block (self : ChatBot.t) (pre x y post : str) :
  contains (action_text pre x [newline] y post)
    (ChatBot.ai_prefix self ++ py ":") = false ->
  contains pre (py "Action: ") = false ->
  ~ In newline x -> contains x (py "Action Input: ") = false ->
  ~ In newline y -> line_end post ->
  ChatBot._extract_tool_and_input self (action_text pre x [newline] y post)
    = Return (strip x, strip_chars [dquote] (strip_chars (py " ") y)).
Proof.
  intros Hm Hpre Hx Hno Hy Hpost.
  rewrite extract_no_marker by exact Hm.
  apply parse_action_block; auto.
Qed.

Lemma extract_action_block_witness :
  ChatBot._extract_tool_and_input chat_bot
    (action_text (py "Thought: look it up" ++ [newline]) (py "Google Search ")
       [newline] (space :: dquote :: py "rocq prover" ++ [dquote; space])
       (newline :: py "Observation: "))
  = Return (py "Google Search", py "rocq prover").
Proof.
  apply (@extract_action_block chat_bot
           (py "Thought: look it up" ++ [newline]) (py "Google Search ")
           (space :: dquote :: py "rocq prover" ++ [dquote; space])
           (newline :: py "Observation: ")).
  - reflexivity.
  - reflexivity.
  - intros H; vm_compute in H; intuition discriminate.
  - reflexivity.
  - intros H; vm_compute in H; intuition discriminate.
  - right. eexists. reflexivity.
Defined.

(** C3.  Output that holds neither the marker nor the action pattern makes
    [_extract_tool_and_input] raise [ValueError]; the function has no
    handler, so the error is its outcome. *)
Theorem parse_failure_raises (self : ChatBot.t) (llm_output : str) :
  contains llm_output (ChatBot.ai_prefix self ++ py ":") = false ->
  ~ has_action_pattern llm_output ->
  ChatBot._extract_tool_and_input self llm_output
    = Raise (Exc ValueError
               (py "Could not parse LLM output: `" ++ llm_output ++ py "`"))
  /\ raises (ChatBot._extract_tool_and_input self llm_output).
Proof.
  intros Hm Hno.
  assert (E : ChatBot._extract_tool_and_input self llm_output
              = Raise (Exc ValueError
                  (py "Could not parse LLM output: `" ++ llm_output ++ py "`"))).
  { rewrite extract_no_marker by exact Hm. unfold ChatBot.parse_action.
    destruct (Re.search ChatBot.regex llm_output) eqn:S; [|reflexivity].
    exfalso. apply Hno. apply search_regex_iff. congruence. }
  split; [exact E | eexists; exact E].
Qed.

Lemma parse_failure_raises_witness :
  ChatBot._extract_tool_and_input chat_bot (py "I do not know.")
    = Raise (Exc ValueError
               (py "Could not parse LLM output: `I do not know.`"))
  /\ raises (ChatBot._extract_tool_and_input chat_bot (py "I do not know.")).
Proof.
  apply (@parse_failure_raises chat_bot (py "I do not know.")).
  - reflexivity.
  - intros H. apply search_regex_iff in H. apply H. reflexivity.
Defined.

(** C4.  [GoogleSearch._run] hands back whatever the wrapper's [run]
    does: when the service is unreachable, the exception leaves [_run].
    [GoogleSearchResults._run] does the same with [results]. *)
Theorem GoogleSearch_run_propagates :
  (forall (item : Type) (self : Tools.GoogleSearch.t item) (query : str),
     Tools.GoogleSearch._run self query
       = Tools.GoogleSearchAPIWrapper.run
           (Tools.GoogleSearch.api_wrapper self) query) /\
  Tools.GoogleSearch._run (Tools.GoogleSearch.Make failing_wrapper)
    (py "weather in Paris") = Raise unreachable /\
  (forall repr_item : unit -> str,
     Tools.GoogleSearchResults._run repr_item
       (Tools.GoogleSearchResults.init failing_wrapper)
       (py "weather in Paris")
     = Raise unreachable).
Proof.
  repeat split.
Qed.

(** [BrowserTool._run], the sibling, does catch: whatever derives from
    [Exception] comes back as its [repr], and nothing else is raised
    unless it derives from [BaseException] alone. *)
Lemma BrowserTool_run_catches (filter_text : str -> result str)
    (str_exc repr_exc : exception -> str)
    (self : Tools.BrowserTool.t) (url : str) (e : exception) :
  (html <- Tools.RequestsWrapper.get
             (Tools.BrowserTool.requests_wrapper self) url ;;
   filter_text html) = Raise e ->
  is_Exception (exc_class_of e) = true ->
  snd (Tools.BrowserTool._run filter_text str_exc repr_exc self url)
    = Return (repr_exc e).
Proof.
  intros H He. unfold Tools.BrowserTool._run. rewrite H, He. reflexivity.
Qed.

Lemma BrowserTool_run_raises_only_base (filter_text : str -> result str)
    (str_exc repr_exc : exception -> str)
    (self : Tools.BrowserTool.t) (url : str) (e : exception) :
  snd (Tools.BrowserTool._run filter_text str_exc repr_exc self url)
    = Raise e ->
  is_Exception (exc_class_of e) = false.
Proof.
  unfold Tools.BrowserTool._run.
  destruct (html <- _ ;; filter_text html) as [c|e']; simpl; [discriminate|].
  destruct (is_Exception (exc_class_of e')) eqn:E; simpl; [discriminate|].
  intros [= <-]. exact E.
Qed.

(** C5.  For each tool of the repository and each input, awaiting [_arun]
    raises [NotImplementedError]; it returns nothing. *)
Theorem arun_unsupported (item : Type) (t : Tools.tool item) (input : str) :
  (exists msg, Tools._arun t input = Raise (Exc NotImplementedError msg)) /\
  (forall v, Tools._arun t input <> Return v).
Proof.
  destruct t; (split; [eexists; reflexivity | discriminate]).
Qed.

(** C6.  The final-answer check comes first: when the output holds the
    marker and also an action block that the pattern matches, the result
    is the final answer, whatever [re.search] would return. *)
Theorem final_answer_precedence (self : ChatBot.t) (pre x y post : str) :
  contains (action_text pre x [newline] y post)
    (ChatBot.ai_prefix self ++ py ":") = true ->
  ~ In newline x ->
  Re.search ChatBot.regex (action_text pre x [newline] y post) <> None /\
  exists t,
    ChatBot._extract_tool_and_input self (action_text pre x [newline] y post)
      = Return (ChatBot.ai_prefix self, t) /\
    forall re_search,
      ChatBot._extract_tool_and_input_with re_search self
        (action_text pre x [newline] y post)
      = Return (ChatBot.ai_prefix self, t).
Proof.
  intros Hm Hx. split.
  - apply search_regex_iff. exists pre, x, [newline], (y ++ post).
    repeat split; [exact Hx | repeat constructor].
  - destruct (extract_marker self _ Hm) as [_ [t [_ [_ [_ Hall]]]]].
    exists (strip t). split; [apply Hall | exact Hall].
Qed.

Lemma final_answer_precedence_witness :
  Re.search ChatBot.regex
    (action_text [] (py "Search") [newline] (py "cats")
       (newline :: py "AI: no tool needed")) <> None /\
  exists t,
    ChatBot._extract_tool_and_input chat_bot
      (action_text [] (py "Search") [newline] (py "cats")
         (newline :: py "AI: no tool needed"))
      = Return (ChatBot.ai_prefix chat_bot, t) /\
    forall re_search,
      ChatBot._extract_tool_and_input_with re_search chat_bot
        (action_text [] (py "Search") [newline] (py "cats")
           (newline :: py "AI: no tool needed"))
      = Return (ChatBot.ai_prefix chat_bot, t).
Proof.
  apply (@final_answer_precedence chat_bot [] (py "Search") (py "cats")
           (newline :: py "AI: no tool needed")).
  - reflexivity.
  - intros H; vm_compute in H; intuition discriminate.
Defined.

(** C8.  The captured input ends with its line: on a first action block
    whose input [y] is followed by a newline and more text, the tool input
    is [y] alone, cleaned, and the result is that of the output cut at the
    newline. *)
Theorem action_input_first_line (self : ChatBot.t) (pre x nls y rest : str) :
  contains (action_text pre x nls y (newline :: rest))
    (ChatBot.ai_prefix self ++ py ":") = false ->
  contains pre (py "Action: ") = false ->
  ~ In newline x -> contains x (py "Action Input: ") = false ->
  Forall (fun c => c = newline) nls ->
  ~ In newline y ->
  ChatBot._extract_tool_and_input self
    (action_text pre x nls y (newline :: rest))
    = Return (strip x, clean_input y) /\
  ChatBot._extract_tool_and_input self
    (action_text pre x nls y (newline :: rest))
    = ChatBot._extract_tool_and_input self (action_text pre x nls y []).
Proof.
  intros Hm Hpre Hx Hno Hnls Hy.
  assert (Hm' : contains (action_text pre x nls y [])
                  (ChatBot.ai_prefix self ++ py ":") = false).
  { apply contains_false_app_l with (b := newline :: rest).
    unfold action_text in *. rewrite <- !app_assoc. rewrite app_nil_l.
    exact Hm. }
  rewrite !extract_no_marker by assumption.
  rewrite !parse_action_block; auto.
  - left. reflexivity.
  - right. exists rest. reflexivity.
Qed.

Lemma action_input_first_line_witness :
  ChatBot._extract_tool_and_input chat_bot
    (action_text [] (py "Search") [newline] (py "cats")
       (newline :: py "and dogs"))
    = Return (py "Search", py "cats") /\
  ChatBot._extract_tool_and_input chat_bot
    (action_text [] (py "Search") [newline] (py "cats")
       (newline :: py "and dogs"))
    = ChatBot._extract_tool_and_input chat_bot
        (action_text [] (py "Search") [newline] (py "cats") []).
Proof.
  apply (@action_input_first_line chat_bot [] (py "Search") [newline]
           (py "cats") (py "and dogs")).
  - reflexivity.
  - reflexivity.
  - intros H; vm_compute in H; intuition discriminate.
  - reflexivity.
  - repeat constructor.
  - intros H; vm_compute in H; intuition discriminate.
Defined.

(** C9.  The pattern also matches on one line: [Action: x], a space,
    [Action Input: y], with no newline in [x] or [y], parses to [x]
    stripped of whitespace and [y] cleaned. *)
Theorem action_on_one_line (self : ChatBot.t) (x y : str) :
  contains (py "Action: " ++ x ++ py " Action Input: " ++ y)
    (ChatBot.ai_prefix self ++ py ":") = false ->
  ~ In newline x -> ~ In newline y ->
  contains (x ++ py " ") (py "Action Input: ") = false ->
  ChatBot._extract_tool_and_input self
    (py "Action: " ++ x ++ py " Action Input: " ++ y)
    = Return (strip x, clean_input y).
Proof.
  intros Hm Hx Hy Hno.
  rewrite extract_no_marker by exact Hm.
  replace (py "Action: " ++ x ++ py " Action Input: " ++ y)
    with (action_text [] (x ++ py " ") [] y []).
  2:{ unfold action_text. rewrite !app_nil_l, app_nil_r, <- app_assoc.
      reflexivity. }
  rewrite parse_action_block.
  - f_equal. f_equal. apply (strip_by_snoc isspace x space). reflexivity.
  - reflexivity.
  - intros H. apply in_app_or in H. destruct H as [H | [H | []]].
    + exact (Hx H).
    + discriminate.
  - exact Hno.
  - constructor.
  - exact Hy.
  - left. reflexivity.
Qed.

Lemma action_on_one_line_witness :
  ChatBot._extract_tool_and_input chat_bot
    (py "Action: " ++ py "Search" ++ py " Action Input: " ++ py "cats")
    = Return (py "Search", py "cats").
Proof.
  apply (@action_on_one_line chat_bot (py "Search") (py "cats")).
  - reflexivity.
  - intros H; vm_compute in H; intuition discriminate.
  - intros H; vm_compute in H; intuition discriminate.
  - reflexivity.
Defined.

(** C10.  [GoogleSearchResults._run] returns [str] of the list that the
    wrapper's [results] gives for the query and [num_results], and a tool
    built with the class default asks for 3 results. *)
Theorem GoogleSearchResults_run_str (item : Type) (repr_item : item -> str)
    (self : Tools.GoogleSearchResults.t item) (query : str)
    (l : list item) :
  Tools.GoogleSearchAPIWrapper.results
    (Tools.GoogleSearchResults.api_wrapper self) query
    (Tools.GoogleSearchResults.num_results self) = Return l ->
  Tools.GoogleSearchResults._run repr_item self query
    = Return (Tools.str_of_list repr_item l) /\
  forall api,
    Tools.GoogleSearchResults.num_results
      (Tools.GoogleSearchResults.init api) = 3%Z /\
    Tools.GoogleSearchResults._run repr_item
      (Tools.GoogleSearchResults.init api) query
    = (r <- Tools.GoogleSearchAPIWrapper.results api query 3%Z ;;
       Return (Tools.str_of_list repr_item r)).
Proof.
  intros H. split.
  - unfold Tools.GoogleSearchResults._run. rewrite H. reflexivity.
  - intros api. split; reflexivity.
Qed.

Lemma GoogleSearchResults_run_str_witness :
  Tools.GoogleSearchResults._run (fun x : str => x)
    (Tools.GoogleSearchResults.init canned_wrapper) (py "rocq")
    = Return (py "[a, b, c]") /\
  forall api,
    Tools.GoogleSearchResults.num_results
      (Tools.GoogleSearchResults.init api) = 3%Z /\
    Tools.GoogleSearchResults._run (fun x : str => x)
      (Tools.GoogleSearchResults.init api) (py "rocq")
    = (r <- Tools.GoogleSearchAPIWrapper.results api (py "rocq") 3%Z ;;
       Return (Tools.str_of_list (fun x : str => x) r)).
Proof.
  apply (@GoogleSearchResults_run_str str (fun x : str => x)
           (Tools.GoogleSearchResults.init canned_wrapper) (py "rocq")
           [py "a"; py "b"; py "c"]).
  reflexivity.
Defined.

(** * What [from_llm_and_tools] does with the tool names

    The list [allowed_tools] is the list of the names of the given tools,
    in order and with repetitions; the method itself neither checks nor
    removes duplicates, so any guarantee of distinct names rests on
    [_validate_tools]. *)

Lemma from_llm_and_tools_names
    (_validate_tools : list ChatBot.BaseTool -> result unit)
    (tools : list ChatBot.BaseTool) (ai_prefix : str) (b : ChatBot.t) :
  ChatBot.from_llm_and_tools _validate_tools tools ai_prefix = Return b ->
  _validate_tools tools = Return tt /\
  ChatBot.allowed_tools b = map ChatBot.name tools /\
  ChatBot.ai_prefix b = ai_prefix.
Proof.
  unfold ChatBot.from_llm_and_tools.
  destruct (_validate_tools tools) as [[]|e]; simpl; [|discriminate].
  intros [= <-]. auto.
Qed.

Lemma from_llm_and_tools_NoDup
    (_validate_tools : list ChatBot.BaseTool -> result unit)
    (tools : list ChatBot.BaseTool) (ai_prefix : str) (b : ChatBot.t) :
  ChatBot.from_llm_and_tools _validate_tools tools ai_prefix = Return b ->
  (NoDup (ChatBot.allowed_tools b) <-> NoDup (map ChatBot.name tools)).
Proof.
  intros H. apply from_llm_and_tools_names in H.
  destruct H as [_ [-> _]]. tauto.
Qed.

(** * The code on sample outputs *)

Example extract_final_answer_sample :
  ChatBot._extract_tool_and_input chat_bot answer_output
  = Return (py "AI", py "Paris is the capital.").
Proof. reflexivity. Qed.

Example extract_last_marker_sample :
  ChatBot._extract_tool_and_input chat_bot (py "AI: one AI: two")
  = Return (py "AI", py "two").
Proof. reflexivity. Qed.

Example extract_blank_lines_sample :
  ChatBot._extract_tool_and_input chat_bot
    (action_text [] (py "Search") [newline; newline] (py "cats") [])
  = Return (py "Search", py "cats").
Proof. reflexivity. Qed.

Example extract_inner_spaces_sample :
  ChatBot._extract_tool_and_input chat_bot
    (action_text [] (py "Search") [newline]
       (dquote :: py " cats " ++ [dquote]) [])
  = Return (py "Search", py " cats ").
Proof. reflexivity. Qed.

Example split_overlap_sample :
  split (py "a:a:a:") (py "a:a:") = Return [[]; py "a:"].
Proof. reflexivity. Qed.

(** * Further facts about the string operations *)

Section StripFacts.
Variable p : char -> bool.

Lemma forallb_rev_str (s : str) : forallb p (rev s) = forallb p s.
Proof.
  apply eq_true_iff_eq. rewrite !forallb_forall. split; intros H c Hc.
  - apply H. apply in_rev. rewrite rev_involutive. exact Hc.
  - apply H. apply in_rev. exact Hc.
Qed.

Lemma dropwhile_all (s : str) : forallb p s = true -> dropwhile p s = [].
Proof.
  intros H. rewrite <- (app_nil_r s). rewrite dropwhile_app_all by exact H.
  reflexivity.
Qed.

(** What [rstrip] removes is a run of strippable characters at the end. *)
Lemma rstrip_by_decomp (d : str) :
  exists b, d = rstrip_by p d ++ b /\ forallb p b = true.
Proof.
  exists (rev (takewhile p (rev d))). split.
  - unfold rstrip_by. rewrite <- rev_app_distr, takewhile_dropwhile.
    symmetry. apply rev_involutive.
  - rewrite forallb_rev_str. apply takewhile_all.
Qed.

(** [strip] removes a run of strippable characters at each end and
    nothing else. *)
Lemma strip_by_decomp (s : str) :
  exists a b,
    s = a ++ strip_by p s ++ b /\ forallb p a = true /\ forallb p b = true.
Proof.
  destruct (rstrip_by_decomp (lstrip_by p s)) as [b [Hd Hb]].
  exists (takewhile p s), b. split; [|split].
  - unfold strip_by. rewrite <- Hd. symmetry. apply takewhile_dropwhile.
  - apply takewhile_all.
  - exact Hb.
Qed.

Lemma strip_by_ends (s : str) : ends_with_char p (strip_by p s) = false.
Proof.
  unfold ends_with_char, strip_by, rstrip_by. rewrite rev_involutive.
  destruct (dropwhile_head p (rev (lstrip_by p s))) as [-> | [c [r [-> Hc]]]];
    [reflexivity | exact Hc].
Qed.

Lemma strip_by_starts (s : str) : starts_with_char p (strip_by p s) = false.
Proof.
  destruct (rstrip_by_decomp (lstrip_by p s)) as [b [Hd _]].
  fold (strip_by p s) in Hd.
  destruct (strip_by p s) as [|c r]; [reflexivity|]. simpl.
  unfold lstrip_by in Hd.
  destruct (dropwhile_head p s) as [E | [c' [r' [E Hc]]]]; rewrite E in Hd.
  - discriminate.
  - injection Hd as -> _. exact Hc.
Qed.

Lemma strip_by_all (s : str) : forallb p s = true -> strip_by p s = [].
Proof.
  intros H. unfold strip_by, lstrip_by, rstrip_by.
  rewrite (dropwhile_all s H). reflexivity.
Qed.

(** A text that neither starts nor ends with a strippable character comes
    back unchanged from between two strippable runs. *)
Lemma strip_by_exact (a w b : str) :
  forallb p a = true -> forallb p b = true ->
  starts_with_char p w = false -> ends_with_char p w = false ->
  strip_by p (a ++ w ++ b) = w.
Proof.
  intros Ha Hb Hs He. unfold strip_by, lstrip_by, rstrip_by.
  rewrite dropwhile_app_all by exact Ha.
  destruct w as [|c w].
  - simpl. rewrite (dropwhile_all b Hb). reflexivity.
  - simpl in Hs. cbn [app dropwhile]. rewrite Hs.
    change (c :: w ++ b) with ((c :: w) ++ b).
    rewrite rev_app_distr.
    rewrite dropwhile_app_all by (rewrite forallb_rev_str; exact Hb).
    rewrite dropwhile_stop; [apply rev_involutive|].
    unfold ends_with_char in He.
    destruct (rev (c :: w)) as [|c' r]; [left; reflexivity|].
    right. exists c', r. split; [reflexivity | exact He].
Qed.
End StripFacts.

Section SubFacts.

Lemma not_in_middle (c : char) (a m b : str) :
  ~ In c (a ++ m ++ b) -> ~ In c m.
Proof.
  intros H Hin. apply H. apply in_or_app. right. apply in_or_app. left.
  exact Hin.
Qed.

Lemma contains_false_middle (a m b sub : str) :
  contains (a ++ m ++ b) sub = false -> contains m sub = false.
Proof.
  intros H. apply contains_false_app_r in H.
  apply contains_false_app_l in H. exact H.
Qed.

Lemma contains_trans (s u m : str) :
  contains s u = true -> contains u m = true -> contains s m = true.
Proof.
  intros H1 H2. apply contains_iff in H1. destruct H1 as [a [b ->]].
  apply contains_iff in H2. destruct H2 as [a' [b' ->]].
  apply contains_iff. exists (a ++ a'), (b' ++ b).
  rewrite <- !app_assoc. reflexivity.
Qed.

(** With a separator whose first character does not recur in it, the
    text after the last separator is determined. *)
Lemma separator_free_suffix_unique (a : char) (m' pre pre' t t' : str) :
  ~ In a m' ->
  pre ++ (a :: m') ++ t = pre' ++ (a :: m') ++ t' ->
  contains t (a :: m') = false -> contains t' (a :: m') = false ->
  t = t'.
Proof.
  intros Ha E Ht Ht'.
  assert (Hcase : forall d u v : str,
            (a :: m') ++ u = d ++ (a :: m') ++ v ->
            contains u (a :: m') = false -> d = []).
  { intros d u v Hd Hu. destruct d as [|c d]; [reflexivity|]. exfalso.
    assert (S : startswith ((c :: d) ++ (a :: m') ++ v) (a :: m') = true).
    { apply startswith_iff. exists u. symmetry. exact Hd. }
    apply startswith_no_overlap in S; [|exact Ha|discriminate].
    apply startswith_iff in S. destruct S as [d' Hd'].
    rewrite Hd' in Hd. rewrite <- app_assoc in Hd.
    apply app_inv_head in Hd.
    assert (contains u (a :: m') = true); [|congruence].
    apply contains_iff. exists d', v. exact Hd. }
  apply app_eq_app in E. destruct E as [d [[Hp Hd] | [Hp Hd]]].
  - pose proof (Hcase d t' t Hd Ht') as ->. rewrite app_nil_l in Hd.
    apply app_inv_head in Hd. symmetry. exact Hd.
  - pose proof (Hcase d t t' Hd Ht) as ->. rewrite app_nil_l in Hd.
    apply app_inv_head in Hd. exact Hd.
Qed.

End SubFacts.

(** * [join] and [split] *)

Section JoinFacts.

Lemma join_cons (sep x y : str) (l : list str) :
  Tools.join sep (x :: y :: l) = x ++ sep ++ Tools.join sep (y :: l).
Proof. reflexivity. Qed.

(** Every item of the list shows up in the joined text. *)
Lemma join_contains (sep x : str) (l : list str) :
  In x l -> exists a b, Tools.join sep l = a ++ x ++ b.
Proof.
  induction l as [|y l IH]; [intros []|].
  intros [-> | H].
  - destruct l as [|z l].
    + exists [], []. simpl. symmetry. apply app_nil_r.
    + exists [], (sep ++ Tools.join sep (z :: l)). rewrite join_cons. reflexivity.
  - destruct l as [|z l]; [destruct H|].
    destruct (IH H) as [a [b E]].
    exists (y ++ sep ++ a), b. rewrite join_cons, E, <- !app_assoc. reflexivity.
Qed.

Lemma find_after (a : char) (p' x r : str) :
  ~ In a p' -> contains x (a :: p') = false ->
  find (x ++ (a :: p') ++ r) (a :: p') = Some (length x).
Proof.
  intros Ha. induction x as [|c x IH]; intros Hx.
  - cbn [app length find].
    change (a :: p' ++ r) with ((a :: p') ++ r).
    rewrite startswith_app. reflexivity.
  - change ((c :: x) ++ (a :: p') ++ r) with (c :: (x ++ (a :: p') ++ r)).
    cbn [find].
    destruct (startswith (c :: (x ++ (a :: p') ++ r)) (a :: p')) eqn:S.
    + exfalso. change (c :: (x ++ (a :: p') ++ r))
        with ((c :: x) ++ (a :: p') ++ r) in S.
      apply startswith_no_overlap in S; [|exact Ha|discriminate].
      apply contains_false_startswith in Hx. congruence.
    + rewrite IH by (apply (contains_false_app_r [c] x); exact Hx).
      reflexivity.
Qed.

Lemma split_on_cut (a : char) (p' x r : str) :
  ~ In a p' -> contains x (a :: p') = false ->
  split_on a p' (x ++ (a :: p') ++ r) = x :: split_on a p' r.
Proof.
  intros Ha Hx. rewrite split_on_unfold, find_after by assumption.
  f_equal.
  - rewrite firstn_app, Nat.sub_diag, firstn_all. simpl. apply app_nil_r.
  - f_equal. change (S (length p')) with (length (a :: p')).
    rewrite app_assoc, <- length_app. apply skipn_app_exact.
Qed.

Lemma split_on_whole (a : char) (p' x : str) :
  contains x (a :: p') = false -> split_on a p' x = [x].
Proof.
  intros Hx. rewrite split_on_unfold.
  rewrite (proj2 (find_None x (a :: p')) Hx). reflexivity.
Qed.

(** Splitting undoes joining, when there is an item, no item holds the
    separator, and the separator's first character does not recur in
    it. *)
Lemma split_join (a : char) (p' : str) (l : list str) :
  ~ In a p' -> l <> [] ->
  Forall (fun x => contains x (a :: p') = false) l ->
  split (Tools.join (a :: p') l) (a :: p') = Return l.
Proof.
  intros Ha Hl Hall. cbn [split]. f_equal.
  induction l as [|x l IH]; [congruence|].
  inversion Hall as [|? ? Hx Hall']; subst.
  destruct l as [|y l].
  - simpl. apply split_on_whole. exact Hx.
  - rewrite join_cons, split_on_cut by assumption.
    f_equal. apply IH; [discriminate | exact Hall'].
Qed.

End JoinFacts.

(** * More properties of the code *)

Section EndsFacts.

Lemma starts_with_char_ext (p q : char -> bool) (s : str) :
  (forall c, p c = q c) -> starts_with_char p s = starts_with_char q s.
Proof. intros H. destruct s; simpl; [reflexivity | apply H]. Qed.

Lemma ends_with_char_ext (p q : char -> bool) (s : str) :
  (forall c, p c = q c) -> ends_with_char p s = ends_with_char q s.
Proof. intros H. apply starts_with_char_ext. exact H. Qed.

Lemma in_dquote_set (c : char) : existsb (N.eqb c) [dquote] = is_dquote c.
Proof. simpl. apply orb_false_r. Qed.

Lemma strip_dquote_starts (s : str) :
  starts_with_char is_dquote (strip_chars [dquote] s) = false.
Proof.
  rewrite <- (starts_with_char_ext _ _ _ in_dquote_set).
  apply strip_by_starts.
Qed.

Lemma strip_dquote_ends (s : str) :
  ends_with_char is_dquote (strip_chars [dquote] s) = false.
Proof.
  rewrite <- (ends_with_char_ext _ _ _ in_dquote_set).
  apply strip_by_ends.
Qed.

(** The cleaned input is a piece of the captured text. *)
Lemma clean_input_decomp (y : str) :
  exists a b, y = a ++ clean_input y ++ b.
Proof.
  unfold clean_input, strip_chars.
  destruct (strip_by_decomp (fun c => existsb (N.eqb c) (py " ")) y)
    as [a [b [Hy _]]].
  destruct (strip_by_decomp (fun c => existsb (N.eqb c) [dquote])
              (strip_by (fun c => existsb (N.eqb c) (py " ")) y))
    as [a' [b' [Hz _]]].
  exists (a ++ a'), (b' ++ b).
  rewrite Hy at 1. rewrite Hz at 1. rewrite <- !app_assoc. reflexivity.
Qed.

End EndsFacts.

(** X1.  [_extract_tool_and_input] returns exactly when the output holds
    the marker or the action pattern, and the only exception it raises is
    the [ValueError] that quotes the whole output: the split never yields
    an empty list and both groups always take part in a match. *)
Theorem extract_outcomes (self : ChatBot.t) (llm_output : str) :
  ((exists r, ChatBot._extract_tool_and_input self llm_output = Return r)
   <-> contains llm_output (ChatBot.ai_prefix self ++ py ":") = true
       \/ has_action_pattern llm_output) /\
  (forall e,
     ChatBot._extract_tool_and_input self llm_output = Raise e ->
     e = Exc ValueError
           (py "Could not parse LLM output: `" ++ llm_output ++ py "`")).
Proof.
  destruct (contains llm_output (ChatBot.ai_prefix self ++ py ":")) eqn:Hm.
  - destruct (extract_marker self llm_output Hm) as [_ [t [_ [_ [_ Hall]]]]].
    unfold ChatBot._extract_tool_and_input. rewrite Hall. split.
    + split; [intros _; left; reflexivity | intros _; eexists; reflexivity].
    + intros e [=].
  - rewrite extract_no_marker by exact Hm. unfold ChatBot.parse_action.
    destruct (Re.search ChatBot.regex llm_output) as [m|] eqn:E.
    + destruct (search_sound _ _ E) as [pre [s' [-> Hm']]].
      destruct (match_here_sound _ Hm')
        as [x [nls [y [post [-> [Hx [Hnls [Hy [Hpost ->]]]]]]]]].
      split.
      * split; [|intros _; eexists; reflexivity].
        intros _. right. apply search_regex_iff. congruence.
      * intros e [=].
    + split.
      * split; [intros [r [=]]|].
        intros [[=] | Hp]. apply search_regex_iff in Hp. congruence.
      * intros e [= <-]. reflexivity.
Qed.

(** X2.  When the first character of the marker does not recur in it (as
    in [AI:]), the answer is the text after the last marker, stripped:
    for every text [pre] and every marker-free text [t], the output
    [pre], marker, [t] parses to [strip t]. *)
Theorem final_answer_after_last_marker (self : ChatBot.t) (a : char)
    (m' pre t : str) :
  ChatBot.ai_prefix self ++ py ":" = a :: m' ->
  ~ In a m' ->
  contains t (ChatBot.ai_prefix self ++ py ":") = false ->
  ChatBot._extract_tool_and_input self
    (pre ++ (ChatBot.ai_prefix self ++ py ":") ++ t)
  = Return (ChatBot.ai_prefix self, strip t).
Proof.
  intros Hmk Ha Ht.
  assert (Hc : contains (pre ++ (ChatBot.ai_prefix self ++ py ":") ++ t)
                 (ChatBot.ai_prefix self ++ py ":") = true).
  { apply contains_iff. exists pre, t. reflexivity. }
  destruct (extract_marker self _ Hc) as [pre' [t' [Hs [Ht' [_ Hall]]]]].
  unfold ChatBot._extract_tool_and_input. rewrite Hall.
  rewrite Hmk in Hs, Ht, Ht'.
  rewrite <- (@separator_free_suffix_unique a m' pre pre' t t' Ha Hs Ht Ht').
  reflexivity.
Qed.

Lemma final_answer_after_last_marker_witness :
  ChatBot._extract_tool_and_input chat_bot
    (py "AI: draft" ++ (ChatBot.ai_prefix chat_bot ++ py ":") ++ py " final ")
  = Return (ChatBot.ai_prefix chat_bot, strip (py " final ")).
Proof.
  apply (@final_answer_after_last_marker chat_bot 65%N (py "I:")
           (py "AI: draft") (py " final ")).
  - reflexivity.
  - intros H; vm_compute in H; intuition discriminate.
  - reflexivity.
Defined.

(** X3.  A final answer never starts or ends with whitespace, holds no
    marker, and is a piece of the output. *)
Theorem final_answer_shape (self : ChatBot.t) (llm_output : str) :
  contains llm_output (ChatBot.ai_prefix self ++ py ":") = true ->
  exists t,
    ChatBot._extract_tool_and_input self llm_output
      = Return (ChatBot.finish_tool_name self, t) /\
    starts_with_char isspace t = false /\
    ends_with_char isspace t = false /\
    contains t (ChatBot.ai_prefix self ++ py ":") = false /\
    contains llm_output t = true.
Proof.
  intros Hm.
  destruct (extract_marker self llm_output Hm)
    as [pre [t [Hs [Ht [_ Hall]]]]].
  destruct (strip_by_decomp isspace t) as [a [b [Hd _]]].
  fold (strip t) in Hd.
  exists (strip t). split; [apply Hall|].
  split; [apply strip_by_starts|]. split; [apply strip_by_ends|]. split.
  - rewrite Hd in Ht. exact (contains_false_middle _ _ _ _ Ht).
  - apply contains_iff.
    exists (pre ++ (ChatBot.ai_prefix self ++ py ":") ++ a), b.
    rewrite Hs at 1. rewrite Hd at 1. rewrite <- !app_assoc. reflexivity.
Qed.

Lemma final_answer_shape_witness :
  exists t,
    ChatBot._extract_tool_and_input chat_bot answer_output
      = Return (ChatBot.finish_tool_name chat_bot, t) /\
    starts_with_char isspace t = false /\
    ends_with_char isspace t = false /\
    contains t (ChatBot.ai_prefix chat_bot ++ py ":") = false /\
    contains answer_output t = true.
Proof.
  apply (@final_answer_shape chat_bot answer_output). reflexivity.
Defined.

(** X4.  Whatever the action branch returns, the tool name holds no
    newline and neither starts nor ends with whitespace, the tool input
    holds no newline and neither starts nor ends with a double quote, and
    both are pieces of the output. *)
Theorem action_result_shape (self : ChatBot.t) (llm_output name input : str) :
  contains llm_output (ChatBot.ai_prefix self ++ py ":") = false ->
  ChatBot._extract_tool_and_input self llm_output = Return (name, input) ->
  (~ In newline name /\
   starts_with_char isspace name = false /\
   ends_with_char isspace name = false /\
   contains llm_output name = true) /\
  (~ In newline input /\
   starts_with_char is_dquote input = false /\
   ends_with_char is_dquote input = false /\
   contains llm_output input = true).
Proof.
  intros Hm H. rewrite extract_no_marker in H by exact Hm.
  unfold ChatBot.parse_action in H.
  destruct (Re.search ChatBot.regex llm_output) as [m|] eqn:E; [|discriminate].
  destruct (search_sound _ _ E) as [pre [s' [-> Hm']]].
  destruct (match_here_sound _ Hm')
    as [x [nls [y [post [-> [Hx [_ [Hy [_ ->]]]]]]]]].
  cbn [ChatBot.group_str Re.group Nat.eqb bind] in H.
  injection H as <- <-.
  destruct (strip_by_decomp isspace x) as [a [b [Hdx _]]].
  fold (strip x) in Hdx.
  destruct (clean_input_decomp y) as [a' [b' Hdy]].
  fold (clean_input y).
  split; (split; [|split; [|split]]).
  - rewrite Hdx in Hx. exact (not_in_middle _ _ _ _ Hx).
  - apply strip_by_starts.
  - apply strip_by_ends.
  - apply contains_iff.
    exists (pre ++ py "Action: " ++ a),
           (b ++ nls ++ py "Action Input: " ++ y ++ post).
    rewrite Hdx at 1. rewrite <- !app_assoc. reflexivity.
  - rewrite Hdy in Hy. exact (not_in_middle _ _ _ _ Hy).
  - apply strip_dquote_starts.
  - apply strip_dquote_ends.
  - apply contains_iff.
    exists (pre ++ py "Action: " ++ x ++ nls ++ py "Action Input: " ++ a'),
           (b' ++ post).
    rewrite Hdy at 1. rewrite <- !app_assoc. reflexivity.
Qed.

Lemma action_result_shape_witness :
  (~ In newline (py "Search") /\
   starts_with_char isspace (py "Search") = false /\
   ends_with_char isspace (py "Search") = false /\
   contains (action_text [] (py " Search ") [newline]
               (dquote :: py "cats" ++ [dquote]) []) (py "Search") = true) /\
  (~ In newline (py "cats") /\
   starts_with_char is_dquote (py "cats") = false /\
   ends_with_char is_dquote (py "cats") = false /\
   contains (action_text [] (py " Search ") [newline]
               (dquote :: py "cats" ++ [dquote]) []) (py "cats") = true).
Proof.
  apply (@action_result_shape chat_bot
           (action_text [] (py " Search ") [newline]
              (dquote :: py "cats" ++ [dquote]) [])
           (py "Search") (py "cats")).
  - reflexivity.
  - reflexivity.
Defined.

(** X5.  Without the marker, an output that lacks the text [Action: ] or
    the text [Action Input: ] (each with its colon and space) is a parse
    error. *)
Theorem missing_literal_is_parse_error (self : ChatBot.t) (llm_output : str) :
  contains llm_output (ChatBot.ai_prefix self ++ py ":") = false ->
  contains llm_output (py "Action: ") = false
    \/ contains llm_output (py "Action Input: ") = false ->
  ChatBot._extract_tool_and_input self llm_output
  = Raise (Exc ValueError
             (py "Could not parse LLM output: `" ++ llm_output ++ py "`")).
Proof.
  intros Hm Hl. rewrite extract_no_marker by exact Hm.
  unfold ChatBot.parse_action.
  destruct (Re.search ChatBot.regex llm_output) as [m|] eqn:E; [|reflexivity].
  exfalso.
  assert (Hp : has_action_pattern llm_output)
    by (apply search_regex_iff; congruence).
  destruct Hp as [pre [x [nls [rest [-> _]]]]].
  destruct Hl as [Hl | Hl].
  - assert (contains (pre ++ py "Action: " ++ x ++ nls
                        ++ py "Action Input: " ++ rest) (py "Action: ") = true);
      [|congruence].
    apply contains_iff. eexists pre, _. reflexivity.
  - assert (contains (pre ++ py "Action: " ++ x ++ nls
                        ++ py "Action Input: " ++ rest)
              (py "Action Input: ") = true); [|congruence].
    apply contains_iff. exists (pre ++ py "Action: " ++ x ++ nls), rest.
    rewrite <- !app_assoc. reflexivity.
Qed.

Lemma missing_literal_is_parse_error_witness :
  ChatBot._extract_tool_and_input chat_bot
    (py "Action:Search" ++ [newline] ++ py "Action Input: cats")
  = Raise (Exc ValueError
             (py "Could not parse LLM output: `"
                ++ (py "Action:Search" ++ [newline] ++ py "Action Input: cats")
                ++ py "`")).
Proof.
  apply (@missing_literal_is_parse_error chat_bot
           (py "Action:Search" ++ [newline] ++ py "Action Input: cats")).
  - reflexivity.
  - left. reflexivity.
Defined.

(** X6.  A bot whose marker occurs in the text [Action: ] (an empty
    [ai_prefix], for one) never parses an action: every output with the
    action pattern is a final answer, and every returned pair carries the
    finish tool name. *)
Theorem marker_in_action_text_never_acts (self : ChatBot.t)
    (llm_output : str) :
  contains (py "Action: ") (ChatBot.ai_prefix self ++ py ":") = true ->
  (has_action_pattern llm_output ->
   exists t, ChatBot._extract_tool_and_input self llm_output
             = Return (ChatBot.finish_tool_name self, t)) /\
  (forall r, ChatBot._extract_tool_and_input self llm_output = Return r ->
             fst r = ChatBot.finish_tool_name self).
Proof.
  intros Hmk.
  assert (Hpat : has_action_pattern llm_output ->
                 contains llm_output (ChatBot.ai_prefix self ++ py ":") = true).
  { intros [pre [x [nls [rest [-> _]]]]].
    apply contains_trans with (u := py "Action: "); [|exact Hmk].
    apply contains_iff. eexists pre, _. reflexivity. }
  assert (Hfin : contains llm_output (ChatBot.ai_prefix self ++ py ":") = true ->
                 exists t, ChatBot._extract_tool_and_input self llm_output
                           = Return (ChatBot.finish_tool_name self, t)).
  { intros Hc. destruct (extract_marker self llm_output Hc)
      as [_ [t [_ [_ [_ Hall]]]]].
    exists (strip t). apply Hall. }
  split.
  - intros Hp. apply Hfin. apply Hpat. exact Hp.
  - intros r Hr.
    destruct (contains llm_output (ChatBot.ai_prefix self ++ py ":")) eqn:Hc.
    + destruct (Hfin eq_refl) as [t Ht]. rewrite Ht in Hr.
      injection Hr as <-. reflexivity.
    + exfalso. rewrite extract_no_marker in Hr by exact Hc.
      unfold ChatBot.parse_action in Hr.
      destruct (Re.search ChatBot.regex llm_output) eqn:E; [|discriminate].
      assert (Hp : has_action_pattern llm_output)
        by (apply search_regex_iff; congruence).
      apply Hpat in Hp. congruence.
Qed.

Lemma marker_in_action_text_never_acts_witness :
  (has_action_pattern (action_text [] (py "Search") [newline] (py "cats") []) ->
   exists t,
     ChatBot._extract_tool_and_input (ChatBot.Make [] [])
       (action_text [] (py "Search") [newline] (py "cats") [])
     = Return (ChatBot.finish_tool_name (ChatBot.Make [] []), t)) /\
  (forall r,
     ChatBot._extract_tool_and_input (ChatBot.Make [] [])
       (action_text [] (py "Search") [newline] (py "cats") []) = Return r ->
     fst r = ChatBot.finish_tool_name (ChatBot.Make [] [])).
Proof.
  apply (@marker_in_action_text_never_acts (ChatBot.Make [] [])
           (action_text [] (py "Search") [newline] (py "cats") [])).
  reflexivity.
Defined.

(** X7.  A blank action name is accepted, not rejected: when only
    whitespace stands between [Action: ] and the newline, the parse
    succeeds with the empty tool name. *)
Theorem blank_action_name_accepted (self : ChatBot.t)
    (pre x y post : str) :
  contains (action_text pre x [newline] y post)
    (ChatBot.ai_prefix self ++ py ":") = false ->
  contains pre (py "Action: ") = false ->
  forallb isspace x = true -> ~ In newline x ->
  ~ In newline y -> line_end post ->
  ChatBot._extract_tool_and_input self (action_text pre x [newline] y post)
  = Return ([], clean_input y).
Proof.
  intros Hm Hpre Hsp Hx Hy Hpost.
  rewrite extract_no_marker by exact Hm.
  rewrite parse_action_block; auto.
  - unfold strip. rewrite strip_by_all by exact Hsp. reflexivity.
  - destruct (contains x (py "Action Input: ")) eqn:E; [|reflexivity].
    apply contains_iff in E. destruct E as [a [b ->]].
    rewrite forallb_forall in Hsp.
    assert (H65 : isspace 65%N = true).
    { apply Hsp. apply in_or_app. right. left. reflexivity. }
    discriminate H65.
Qed.

Lemma blank_action_name_accepted_witness :
  ChatBot._extract_tool_and_input chat_bot
    (action_text [] (py "  ") [newline] (py "cats") [])
  = Return ([], clean_input (py "cats")).
Proof.
  apply (@blank_action_name_accepted chat_bot [] (py "  ") (py "cats") []).
  - reflexivity.
  - reflexivity.
  - reflexivity.
  - intros H; vm_compute in H; intuition discriminate.
  - intros H; vm_compute in H; intuition discriminate.
  - left. reflexivity.
Defined.

(** X8.  An input written between double quotes, with spaces around the
    quotes, comes back as the quoted text, unchanged: spaces inside the
    quotes stay. *)
Theorem quoted_input_unquoted (self : ChatBot.t)
    (pre x sp1 w sp2 post : str) :
  contains (action_text pre x [newline]
              (sp1 ++ [dquote] ++ w ++ [dquote] ++ sp2) post)
    (ChatBot.ai_prefix self ++ py ":") = false ->
  contains pre (py "Action: ") = false ->
  ~ In newline x -> contains x (py "Action Input: ") = false ->
  Forall (fun c => c = space) sp1 -> Forall (fun c => c = space) sp2 ->
  ~ In newline w ->
  starts_with_char is_dquote w = false ->
  ends_with_char is_dquote w = false ->
  line_end post ->
  ChatBot._extract_tool_and_input self
    (action_text pre x [newline]
       (sp1 ++ [dquote] ++ w ++ [dquote] ++ sp2) post)
  = Return (strip x, w).
Proof.
  intros Hm Hpre Hx Hno H1 H2 Hw Hs He Hpost.
  assert (Hsp : forall sp, Forall (fun c => c = space) sp ->
                  forallb (fun c => existsb (N.eqb c) (py " ")) sp = true).
  { intros sp H. apply forallb_forall. intros c Hc.
    rewrite Forall_forall in H. rewrite (H c Hc). reflexivity. }
  assert (Hnl : forall sp, Forall (fun c => c = space) sp -> ~ In newline sp).
  { intros sp H Hin. rewrite Forall_forall in H. apply H in Hin.
    discriminate. }
  rewrite extract_no_marker by exact Hm.
  rewrite parse_action_block; auto.
  - f_equal. f_equal. unfold clean_input, strip_chars.
    replace (sp1 ++ [dquote] ++ w ++ [dquote] ++ sp2)
      with (sp1 ++ ([dquote] ++ w ++ [dquote]) ++ sp2)
      by (rewrite <- !app_assoc; reflexivity).
    rewrite strip_by_exact; auto.
    + apply strip_by_exact; try reflexivity.
      * rewrite (starts_with_char_ext _ _ _ in_dquote_set). exact Hs.
      * rewrite (ends_with_char_ext _ _ _ in_dquote_set). exact He.
    + unfold ends_with_char. rewrite !rev_app_distr. reflexivity.
  - intros Hin. apply in_app_or in Hin. destruct Hin as [Hin | Hin].
    { exact (Hnl _ H1 Hin). }
    apply in_app_or in Hin. destruct Hin as [[Hin | []] | Hin].
    { discriminate. }
    apply in_app_or in Hin. destruct Hin as [Hin | Hin].
    { exact (Hw Hin). }
    apply in_app_or in Hin. destruct Hin as [[Hin | []] | Hin].
    { discriminate. }
    exact (Hnl _ H2 Hin).
Qed.

Lemma quoted_input_unquoted_witness :
  ChatBot._extract_tool_and_input chat_bot
    (action_text [] (py "Search") [newline]
       (py " " ++ [dquote] ++ py " cats " ++ [dquote] ++ py "  ") [])
  = Return (strip (py "Search"), py " cats ").
Proof.
  apply (@quoted_input_unquoted chat_bot [] (py "Search") (py " ")
           (py " cats ") (py "  ") []).
  - reflexivity.
  - reflexivity.
  - intros H; vm_compute in H; intuition discriminate.
  - reflexivity.
  - repeat constructor.
  - repeat constructor.
  - intros H; vm_compute in H; intuition discriminate.
  - reflexivity.
  - reflexivity.
  - left. reflexivity.
Defined.



(** X10.  The template that [create_prompt] builds starts with the
    prefix, ends with the suffix, and holds the line of every tool given:
    its name and its description. *)
Theorem template_lists_every_tool
    (format : str -> str -> str -> str -> result str)
    (tools : list ChatBot.BaseTool)
    (prefix suffix format_instructions ai_prefix human_prefix tpl : str) :
  ChatBotPrompt.template_of format tools prefix suffix format_instructions
    ai_prefix human_prefix = Return tpl ->
  startswith tpl prefix = true /\
  (exists r, tpl = r ++ suffix) /\
  forall tool, In tool tools ->
    contains tpl (py "> " ++ ChatBot.name tool ++ py ": "
                    ++ ChatBot.description tool) = true.
Proof.
  unfold ChatBotPrompt.template_of.
  destruct (format format_instructions (ChatBotPrompt.tool_names tools)
              ai_prefix human_prefix) as [f|e]; cbn [bind]; [|discriminate].
  intros [= <-].
  change (Tools.join [newline; newline]
            [prefix; ChatBotPrompt.tool_strings tools; f; suffix])
    with (prefix ++ [newline; newline] ++ ChatBotPrompt.tool_strings tools
            ++ [newline; newline] ++ f ++ [newline; newline] ++ suffix).
  split; [apply startswith_app|]. split.
  - exists (prefix ++ [newline; newline] ++ ChatBotPrompt.tool_strings tools
              ++ [newline; newline] ++ f ++ [newline; newline]).
    repeat rewrite <- app_assoc. reflexivity.
  - intros tool Hin.
    destruct (@join_contains [newline] (ChatBotPrompt.tool_string tool)
                (map ChatBotPrompt.tool_string tools)) as [a [b E]].
    { apply in_map. exact Hin. }
    apply contains_iff.
    exists (prefix ++ [newline; newline] ++ a),
           (b ++ [newline; newline] ++ f ++ [newline; newline] ++ suffix).
    unfold ChatBotPrompt.tool_strings. rewrite E.
    change (py "> " ++ ChatBot.name tool ++ py ": "
              ++ ChatBot.description tool)
      with (ChatBotPrompt.tool_string tool).
    repeat rewrite <- app_assoc. reflexivity.
Qed.

Lemma template_lists_every_tool_witness :
  startswith (py "P" ++ [newline; newline]
                ++ ChatBotPrompt.tool_strings sample_tools
                ++ [newline; newline] ++ py "F" ++ [newline; newline]
                ++ py "S") (py "P") = true /\
  (exists r, py "P" ++ [newline; newline]
               ++ ChatBotPrompt.tool_strings sample_tools
               ++ [newline; newline] ++ py "F" ++ [newline; newline]
               ++ py "S" = r ++ py "S") /\
  forall tool, In tool sample_tools ->
    contains (py "P" ++ [newline; newline]
                ++ ChatBotPrompt.tool_strings sample_tools
                ++ [newline; newline] ++ py "F" ++ [newline; newline]
                ++ py "S")
      (py "> " ++ ChatBot.name tool ++ py ": "
         ++ ChatBot.description tool) = true.
Proof.
  apply (@template_lists_every_tool (fun f _ _ _ => Return f) sample_tools
           (py "P") (py "S") (py "F") (py "AI") (py "Human")).
  reflexivity.
Defined.

(** X11.  The names in [tool_names] can be read back: when there is a
    tool and no name holds a comma followed by a space, splitting
    [tool_names] at that separator gives the names of the tools, in
    order. *)
Theorem tool_names_round_trip (tools : list ChatBot.BaseTool) :
  tools <> [] ->
  (forall tool, In tool tools ->
     contains (ChatBot.name tool) (py ", ") = false) ->
  split (ChatBotPrompt.tool_names tools) (py ", ")
  = Return (map ChatBot.name tools).
Proof.
  intros Hne Hall. unfold ChatBotPrompt.tool_names.
  apply (@split_join 44%N [space]).
  - intros [H | []]. discriminate.
  - destruct tools; [congruence | discriminate].
  - apply Forall_forall. intros x Hx. apply in_map_iff in Hx.
    destruct Hx as [tool [<- Hin]]. apply Hall. exact Hin.
Qed.

Lemma tool_names_round_trip_witness :
  split (ChatBotPrompt.tool_names sample_tools) (py ", ")
  = Return (map ChatBot.name sample_tools).
Proof.
  apply (@tool_names_round_trip sample_tools).
  - discriminate.
  - intros tool [<- | [<- | []]]; reflexivity.
Defined.

(** X12.  [BrowserTool._run] never lets an exception that derives from
    [Exception] out: it returns text, or it raises what the fetch or the
    filter raised and that derives from [BaseException] alone; and every
    [Exception] of the fetch or the filter comes back as its [repr]. *)
Theorem BrowserTool_run_outcomes (filter_text : str -> result str)
    (str_exc repr_exc : exception -> str)
    (self : Tools.BrowserTool.t) (url : str) :
  ((exists out,
      snd (Tools.BrowserTool._run filter_text str_exc repr_exc self url)
      = Return out) \/
   (exists e,
      snd (Tools.BrowserTool._run filter_text str_exc repr_exc self url)
      = Raise e /\
      is_Exception (exc_class_of e) = false /\
      (html <- Tools.RequestsWrapper.get
                 (Tools.BrowserTool.requests_wrapper self) url ;;
       filter_text html) = Raise e)) /\
  (forall e,
     (html <- Tools.RequestsWrapper.get
                (Tools.BrowserTool.requests_wrapper self) url ;;
      filter_text html) = Raise e ->
     is_Exception (exc_class_of e) = true ->
     Tools.BrowserTool._run filter_text str_exc repr_exc self url
     = ([(Tools.ERROR, py "[browser] " ++ str_exc e)], Return (repr_exc e))).
Proof.
  unfold Tools.BrowserTool._run.
  destruct (html <- _ ;; filter_text html) as [c|e] eqn:E.
  - split; [left; eexists; reflexivity | discriminate].
  - destruct (is_Exception (exc_class_of e)) eqn:He; split.
    + left. eexists. reflexivity.
    + intros e' [= <-] _. reflexivity.
    + right. exists e. auto.
    + intros e' [= <-] He'. congruence.
Qed.

Lemma join_nil_iff (sep : str) (l : list str) :
  (forall x, In x l -> x <> []) ->
  (Tools.join sep l = [] <-> l = []).
Proof.
  intros Hne. split; [|intros ->; reflexivity].
  destruct l as [|x l]; [reflexivity|]. intros H. exfalso.
  apply (Hne x (or_introl eq_refl)).
  destruct l as [|y l].
  - exact H.
  - rewrite join_cons in H. apply app_eq_nil in H. tauto.
Qed.

(** X13.  What [GoogleSearchResults._run] returns always stands between
    square brackets, and, as no [repr] is empty, it is the bare pair of
    brackets exactly when the wrapper found nothing. *)
Theorem GoogleSearchResults_run_brackets (item : Type)
    (repr_item : item -> str) (self : Tools.GoogleSearchResults.t item)
    (query : str) (l : list item) :
  Tools.GoogleSearchAPIWrapper.results
    (Tools.GoogleSearchResults.api_wrapper self) query
    (Tools.GoogleSearchResults.num_results self) = Return l ->
  (forall i, repr_item i <> []) ->
  exists body,
    Tools.GoogleSearchResults._run repr_item self query
      = Return (py "[" ++ body ++ py "]") /\
    (body = [] <-> l = []).
Proof.
  intros H Hrepr. exists (Tools.join (py ", ") (map repr_item l)). split.
  - unfold Tools.GoogleSearchResults._run. rewrite H. reflexivity.
  - rewrite join_nil_iff.
    + split; [apply map_eq_nil | intros ->; reflexivity].
    + intros x Hx. apply in_map_iff in Hx. destruct Hx as [i [<- _]].
      apply Hrepr.
Qed.

Lemma GoogleSearchResults_run_brackets_witness :
  exists body,
    Tools.GoogleSearchResults._run (fun x : str => dquote :: x ++ [dquote])
      (Tools.GoogleSearchResults.init canned_wrapper) (py "rocq")
      = Return (py "[" ++ body ++ py "]") /\
    (body = [] <-> [py "a"; py "b"; py "c"] = []).
Proof.
  apply (@GoogleSearchResults_run_brackets str
           (fun x : str => dquote :: x ++ [dquote])
           (Tools.GoogleSearchResults.init canned_wrapper) (py "rocq")
           [py "a"; py "b"; py "c"]).
  - reflexivity.
  - intros i. discriminate.
Defined.
